(** * Disk-backed memoisation ([naren._diskcache_fn]): model and proofs

    The development embeds [_arg_hash] and the [wrapper] closure built by
    [diskcache_fn], together with the parts of their environment they
    call into: [pickle] (protocols 4 and 5, on a fragment of Python
    values), [hashlib.md5], [pathlib] path arithmetic and a small
    file-system store. *)

From Stdlib Require Import ZArith Lia List Bool.
From Stdlib.Strings Require Import Ascii String Byte.
From stdpp Require Import base option gmap strings list.
Import ListNotations.

Local Open Scope Z_scope.

(** ** Bytes *)

Definition bytes := list byte.

Definition Z_of_byte (b : byte) : Z := Z.of_N (Byte.to_N b).

Definition byte_of_Z (z : Z) : byte :=
  match Byte.of_N (Z.to_N (z mod 256)) with
  | Some b => b
  | None => x00
  end.

(** Little-endian encoding of [z] on [n] bytes ([int.to_bytes(n, 'little')],
    [struct.pack('<B' | '<H' | '<I' | '<Q')]): the value is taken modulo
    [256 ^ n]. *)
Fixpoint le_bytes (n : nat) (z : Z) : bytes :=
  match n with
  | O => []
  | S n' => byte_of_Z z :: le_bytes n' (z / 256)
  end.

(** [int.from_bytes(bs, 'little')], unsigned. *)
Fixpoint le_value (bs : bytes) : Z :=
  match bs with
  | [] => 0
  | b :: bs' => Z_of_byte b + 256 * le_value bs'
  end.

Definition blen (bs : bytes) : Z := Z.of_nat (List.length bs).

(** ** MD5 (RFC 1321), as called through [hashlib.md5(...).hexdigest()] *)

Module MD5.

Definition mask32 : Z := 0xFFFFFFFF.
Definition add32 (x y : Z) : Z := (x + y) mod 2 ^ 32.
Definition not32 (x : Z) : Z := Z.lxor x mask32.
Definition rotl32 (x s : Z) : Z :=
  Z.lor (Z.land (Z.shiftl x s) mask32) (Z.shiftr x (32 - s)).

Definition K : list Z :=
  [ 0xd76aa478; 0xe8c7b756; 0x242070db; 0xc1bdceee;
    0xf57c0faf; 0x4787c62a; 0xa8304613; 0xfd469501;
    0x698098d8; 0x8b44f7af; 0xffff5bb1; 0x895cd7be;
    0x6b901122; 0xfd987193; 0xa679438e; 0x49b40821;
    0xf61e2562; 0xc040b340; 0x265e5a51; 0xe9b6c7aa;
    0xd62f105d; 0x02441453; 0xd8a1e681; 0xe7d3fbc8;
    0x21e1cde6; 0xc33707d6; 0xf4d50d87; 0x455a14ed;
    0xa9e3e905; 0xfcefa3f8; 0x676f02d9; 0x8d2a4c8a;
    0xfffa3942; 0x8771f681; 0x6d9d6122; 0xfde5380c;
    0xa4beea44; 0x4bdecfa9; 0xf6bb4b60; 0xbebfbc70;
    0x289b7ec6; 0xeaa127fa; 0xd4ef3085; 0x04881d05;
    0xd9d4d039; 0xe6db99e5; 0x1fa27cf8; 0xc4ac5665;
    0xf4292244; 0x432aff97; 0xab9423a7; 0xfc93a039;
    0x655b59c3; 0x8f0ccc92; 0xffeff47d; 0x85845dd1;
    0x6fa87e4f; 0xfe2ce6e0; 0xa3014314; 0x4e0811a1;
    0xf7537e82; 0xbd3af235; 0x2ad7d2bb; 0xeb86d391 ].

Definition S : list Z :=
  [ 7; 12; 17; 22; 7; 12; 17; 22; 7; 12; 17; 22; 7; 12; 17; 22;
    5; 9; 14; 20; 5; 9; 14; 20; 5; 9; 14; 20; 5; 9; 14; 20;
    4; 11; 16; 23; 4; 11; 16; 23; 4; 11; 16; 23; 4; 11; 16; 23;
    6; 10; 15; 21; 6; 10; 15; 21; 6; 10; 15; 21; 6; 10; 15; 21 ].

Record state := State { sA : Z; sB : Z; sC : Z; sD : Z }.

Definition init : state :=
  State 0x67452301 0xefcdab89 0x98badcfe 0x10325476.

(** Message padding: a [0x80] byte, zeros up to 56 modulo 64, then the bit
    length on 8 little-endian bytes. *)
Definition pad (msg : bytes) : bytes :=
  let n := blen msg in
  let zeros := Z.to_nat ((55 - n) mod 64) in
  msg ++ x80 :: repeat x00 zeros ++ le_bytes 8 (8 * n).

(** The sixteen little-endian words of a 64-byte block. *)
Fixpoint words (n : nat) (bs : bytes) : list Z :=
  match n with
  | O => []
  | Datatypes.S n' => le_value (firstn 4 bs) :: words n' (skipn 4 bs)
  end.

Definition round (M : list Z) (st : state) (i : nat) : state :=
  let '(State a b c d) := st in
  let iz := Z.of_nat i in
  let '(f, g) :=
    if iz <? 16 then (Z.lor (Z.land b c) (Z.land (not32 b) d), iz)
    else if iz <? 32 then
      (Z.lor (Z.land d b) (Z.land (not32 d) c), (5 * iz + 1) mod 16)
    else if iz <? 48 then (Z.lxor b (Z.lxor c d), (3 * iz + 5) mod 16)
    else (Z.lxor c (Z.lor b (not32 d)), (7 * iz) mod 16) in
  let f' := add32 (add32 (add32 f a) (nth i K 0)) (nth (Z.to_nat g) M 0) in
  State d (add32 b (rotl32 f' (nth i S 0))) b c.

Definition compress (st : state) (block : bytes) : state :=
  let M := words 16 block in
  let '(State a b c d) := fold_left (round M) (seq 0 64) st in
  State (add32 (sA st) a) (add32 (sB st) b)
        (add32 (sC st) c) (add32 (sD st) d).

Fixpoint blocks (n : nat) (st : state) (bs : bytes) : state :=
  match n with
  | O => st
  | Datatypes.S n' => blocks n' (compress st (firstn 64 bs)) (skipn 64 bs)
  end.

(** The 16-byte digest. *)
Definition digest (msg : bytes) : bytes :=
  let p := pad msg in
  let '(State a b c d) := blocks (List.length p / 64)%nat init p in
  le_bytes 4 a ++ le_bytes 4 b ++ le_bytes 4 c ++ le_bytes 4 d.

Definition hexdigit (z : Z) : ascii :=
  nth (Z.to_nat z)
      (list_ascii_of_string "0123456789abcdef") "0"%char.

Definition hexbyte (b : byte) : list ascii :=
  [hexdigit (Z_of_byte b / 16); hexdigit (Z_of_byte b mod 16)].

(** [hashlib.md5(msg).hexdigest()]: 32 lower-case hexadecimal digits. *)
Definition hexdigest (msg : bytes) : string :=
  string_of_list_ascii (concat (map hexbyte (digest msg))).

End MD5.

(** ** Python values

    The fragment of Python objects over which arguments and return values
    range.  A [PyStr] carries the UTF-8 encoding of its text.  A [PyDict]
    lists its items in iteration (insertion) order.  [PyOpaque] stands for
    an object [pickle] refuses (an open file, a lock, a lambda, a
    generator); its tag only tells such objects apart. *)

#[local] Unset Elimination Schemes.
Inductive pyval : Type :=
| PyNone
| PyBool (b : bool)
| PyInt (z : Z)
| PyStr (s : string)
| PyTuple (items : list pyval)
| PyList (items : list pyval)
| PyDict (items : list (pyval * pyval))
| PyOpaque (tag : string).
#[local] Set Elimination Schemes.

(** Keyword arguments: [**kwargs], a [dict] with [str] keys. *)
Definition kwargs_t := list (string * pyval).

Definition kwargs_dict (kwargs : kwargs_t) : pyval :=
  PyDict (map (fun kv => (PyStr (fst kv), snd kv)) kwargs).

(** ** [pickle]: the pickler

    Protocols 4 and 5 coincide on the fragment up to the protocol byte.
    Every object is reached once, so the memo is written ([MEMOIZE]) and
    never read; containers go out in one batch and the stream in one
    frame, which is what [pickle] emits below 1000 items per container and
    64 KiB per stream. *)

Module Pickle.

Definition PROTO : byte := x80.
Definition FRAME : byte := x95.
Definition STOP : byte := x2e.
Definition NONE : byte := x4e.
Definition NEWTRUE : byte := x88.
Definition NEWFALSE : byte := x89.
Definition BININT : byte := x4a.
Definition BININT1 : byte := x4b.
Definition BININT2 : byte := x4d.
Definition LONG1 : byte := x8a.
Definition LONG4 : byte := x8b.
Definition SHORT_BINUNICODE : byte := x8c.
Definition BINUNICODE : byte := x58.
Definition BINUNICODE8 : byte := x8d.
Definition MARK : byte := x28.
Definition EMPTY_TUPLE : byte := x29.
Definition TUPLE1 : byte := x85.
Definition TUPLE2 : byte := x86.
Definition TUPLE3 : byte := x87.
Definition TUPLE : byte := x74.
Definition EMPTY_LIST : byte := x5d.
Definition APPEND : byte := x61.
Definition APPENDS : byte := x65.
Definition EMPTY_DICT : byte := x7d.
Definition SETITEM : byte := x73.
Definition SETITEMS : byte := x75.
Definition MEMOIZE : byte := x94.

(** [pickle.DEFAULT_PROTOCOL] (Python 3.8 to 3.13) and
    [pickle.HIGHEST_PROTOCOL]. *)
Definition DEFAULT_PROTOCOL : Z := 4.
Definition HIGHEST_PROTOCOL : Z := 5.

(** [int.bit_length()]. *)
Definition bit_length (z : Z) : Z :=
  if z =? 0 then 0 else Z.log2 (Z.abs z) + 1.

(** [pickle.encode_long]: shortest little-endian two's complement. *)
Definition encode_long (z : Z) : bytes :=
  if z =? 0 then []
  else
    let nbytes := Z.to_nat (Z.shiftr (bit_length z) 3 + 1) in
    let result := le_bytes nbytes z in
    if (z <? 0) && (1 <? Z.of_nat nbytes)
       && (Z_of_byte (nth (nbytes - 1) result x00) =? 255)
       && negb (Z.land (Z_of_byte (nth (nbytes - 2) result x00)) 128 =? 0)
    then firstn (nbytes - 1) result
    else result.

(** [sys.maxsize]: no [bytes] or [str] object is longer. *)
Definition maxsize : Z := 2 ^ 63 - 1.

(** [Pickler.save_long]; an [int] of more than [0x7fffffff] bytes is
    refused ("int too large to pickle"). *)
Definition save_long (z : Z) : option bytes :=
  if (0 <=? z) && (z <=? 0xff) then Some (BININT1 :: le_bytes 1 z)
  else if (0 <=? z) && (z <=? 0xffff) then Some (BININT2 :: le_bytes 2 z)
  else if (-0x80000000 <=? z) && (z <=? 0x7fffffff) then
    Some (BININT :: le_bytes 4 z)
  else
    let encoded := encode_long z in
    let n := blen encoded in
    if n <? 256 then Some (LONG1 :: le_bytes 1 n ++ encoded)
    else if n <=? 0x7fffffff then Some (LONG4 :: le_bytes 4 n ++ encoded)
    else None.

(** [Pickler.save_str]. *)
Definition save_str (s : string) : option bytes :=
  let encoded := list_byte_of_string s in
  let n := blen encoded in
  if n <=? 0xff then
    Some (SHORT_BINUNICODE :: le_bytes 1 n ++ encoded ++ [MEMOIZE])
  else if n <=? 0xffffffff then
    Some (BINUNICODE :: le_bytes 4 n ++ encoded ++ [MEMOIZE])
  else if n <=? maxsize then
    Some (BINUNICODE8 :: le_bytes 8 n ++ encoded ++ [MEMOIZE])
  else None.

Definition save_tuple_tail (n : nat) (payload : bytes) : bytes :=
  match n with
  | 0%nat => [EMPTY_TUPLE]
  | 1%nat => payload ++ [TUPLE1; MEMOIZE]
  | 2%nat => payload ++ [TUPLE2; MEMOIZE]
  | 3%nat => payload ++ [TUPLE3; MEMOIZE]
  | _ => MARK :: payload ++ [TUPLE; MEMOIZE]
  end.

(** One batch of [n] items whose opcodes are [payload]: nothing for an
    empty container, the single-item opcode for one item, a marked run
    otherwise. *)
Definition batch (n : nat) (one many : byte) (payload : bytes) : bytes :=
  match n with
  | 0%nat => []
  | 1%nat => payload ++ [one]
  | _ => MARK :: payload ++ [many]
  end.

(** [Pickler.save]: the opcodes of one object; [None] when the object, or
    one it contains, cannot be pickled. *)
Fixpoint save (v : pyval) : option bytes :=
  match v with
  | PyNone => Some [NONE]
  | PyBool b => Some [if b then NEWTRUE else NEWFALSE]
  | PyInt z => save_long z
  | PyStr s => save_str s
  | PyTuple items =>
      match (fix save_all (l : list pyval) : option bytes :=
               match l with
               | [] => Some []
               | x :: l' =>
                   match save x, save_all l' with
                   | Some bx, Some bl => Some (bx ++ bl)
                   | _, _ => None
                   end
               end) items with
      | Some payload => Some (save_tuple_tail (List.length items) payload)
      | None => None
      end
  | PyList items =>
      match (fix save_all (l : list pyval) : option bytes :=
               match l with
               | [] => Some []
               | x :: l' =>
                   match save x, save_all l' with
                   | Some bx, Some bl => Some (bx ++ bl)
                   | _, _ => None
                   end
               end) items with
      | Some payload =>
          Some (EMPTY_LIST :: MEMOIZE
                :: batch (List.length items) APPEND APPENDS payload)
      | None => None
      end
  | PyDict items =>
      match (fix save_items (l : list (pyval * pyval)) : option bytes :=
               match l with
               | [] => Some []
               | (k, x) :: l' =>
                   match save k, save x, save_items l' with
                   | Some bk, Some bx, Some bl => Some (bk ++ bx ++ bl)
                   | _, _, _ => None
                   end
               end) items with
      | Some payload =>
          Some (EMPTY_DICT :: MEMOIZE
                :: batch (List.length items) SETITEM SETITEMS payload)
      | None => None
      end
  | PyOpaque _ => None
  end.

(** The item loops of [save], by name. *)
Definition save_all : list pyval -> option bytes :=
  fix save_all (l : list pyval) : option bytes :=
    match l with
    | [] => Some []
    | x :: l' =>
        match save x, save_all l' with
        | Some bx, Some bl => Some (bx ++ bl)
        | _, _ => None
        end
    end.

Definition save_items : list (pyval * pyval) -> option bytes :=
  fix save_items (l : list (pyval * pyval)) : option bytes :=
    match l with
    | [] => Some []
    | (k, x) :: l' =>
        match save k, save x, save_items l' with
        | Some bk, Some bx, Some bl => Some (bk ++ bx ++ bl)
        | _, _, _ => None
        end
    end.

(** Framing: a frame header when the frame holds at least 4 bytes. *)
Definition frame (payload : bytes) : bytes :=
  if 4 <=? blen payload then FRAME :: le_bytes 8 (blen payload) ++ payload
  else payload.

(** [pickle.dumps(v, protocol=proto)] for [proto] 4 or 5; a stream longer
    than [sys.maxsize] cannot be built. *)
Definition dumps (proto : Z) (v : pyval) : option bytes :=
  match save v with
  | Some ops =>
      if blen ops <? maxsize
      then Some (PROTO :: le_bytes 1 proto ++ frame (ops ++ [STOP]))
      else None
  | None => None
  end.

(** *** The unpickler

    A stack machine.  The stack holds objects and marks; [Unpickler.load]
    reads one opcode at a time until [STOP].  Opcodes outside those the
    pickler above emits are rejected. *)

Inductive item : Type :=
| IVal (v : pyval)
| IMark.

Definition stack := list item.

Inductive outcome : Type :=
| Next (rest : bytes) (stk : stack)
| Done (v : pyval)
| Fail.

(** Read [n] bytes; fails on a truncated stream. *)
Definition readn (n : Z) (bs : bytes) : option (bytes * bytes) :=
  if (0 <=? n) && (n <=? blen bs)
  then Some (firstn (Z.to_nat n) bs, skipn (Z.to_nat n) bs)
  else None.

(** [pickle.decode_long]: little-endian two's complement. *)
Definition decode_long (bs : bytes) : Z :=
  let u := le_value bs in
  if 128 <=? Z_of_byte (List.last bs x00) then u - 256 ^ blen bs else u.

(** The objects above the topmost mark, oldest first, and the stack
    under that mark. *)
Fixpoint pop_mark (stk : stack) (acc : list pyval)
  : option (list pyval * stack) :=
  match stk with
  | [] => None
  | IMark :: stk' => Some (acc, stk')
  | IVal v :: stk' => pop_mark stk' (v :: acc)
  end.

(** [hash(v)] succeeds. *)
Fixpoint hashable (v : pyval) : bool :=
  match v with
  | PyNone | PyBool _ | PyInt _ | PyStr _ | PyOpaque _ => true
  | PyTuple items =>
      (fix all (l : list pyval) : bool :=
         match l with
         | [] => true
         | x :: l' => hashable x && all l'
         end) items
  | PyList _ | PyDict _ => false
  end.

(** [a == b] on hashable objects: [bool] is a subtype of [int], tuples
    compare item by item, an opaque object equals itself only. *)
Fixpoint key_eqb (a b : pyval) : bool :=
  match a, b with
  | PyNone, PyNone => true
  | PyBool x, PyBool y => Bool.eqb x y
  | PyBool x, PyInt z | PyInt z, PyBool x => z =? (if x then 1 else 0)
  | PyInt x, PyInt y => x =? y
  | PyStr s, PyStr t => String.eqb s t
  | PyOpaque s, PyOpaque t => String.eqb s t
  | PyTuple l, PyTuple m =>
      (fix all2 (l m : list pyval) : bool :=
         match l, m with
         | [], [] => true
         | x :: l', y :: m' => key_eqb x y && all2 l' m'
         | _, _ => false
         end) l m
  | _, _ => false
  end.

(** [d[k] = x]: an equal key keeps its place and takes the new value, a
    new key goes last. *)
Fixpoint dict_set (d : list (pyval * pyval)) (k x : pyval)
  : list (pyval * pyval) :=
  match d with
  | [] => [(k, x)]
  | (k', x') :: d' =>
      if key_eqb k' k then (k', x) :: d' else (k', x') :: dict_set d' k x
  end.

(** [SETITEMS]: the popped objects are keys and values in turn; an
    unhashable key or an odd count is an error. *)
Fixpoint set_items (d : list (pyval * pyval)) (l : list pyval)
  : option (list (pyval * pyval)) :=
  match l with
  | [] => Some d
  | k :: x :: l' =>
      if hashable k then set_items (dict_set d k x) l' else None
  | [_] => None
  end.

Definition push (v : pyval) (rest : bytes) (stk : stack) : outcome :=
  Next rest (IVal v :: stk).

(** An opcode with a length prefix of [w] bytes followed by that many
    bytes of payload. *)
Definition counted (w : Z) (bs : bytes) (k : bytes -> bytes -> outcome)
  : outcome :=
  match readn w bs with
  | Some (n, bs1) =>
      match readn (le_value n) bs1 with
      | Some (payload, bs2) => k payload bs2
      | None => Fail
      end
  | None => Fail
  end.

Definition step (bs : bytes) (stk : stack) : outcome :=
  match bs with
  | [] => Fail
  | op :: bs =>
      if Byte.eqb op PROTO then
        match readn 1 bs with
        | Some (p, bs') =>
            if le_value p <=? HIGHEST_PROTOCOL then Next bs' stk else Fail
        | None => Fail
        end
      else if Byte.eqb op FRAME then
        match readn 8 bs with
        | Some (n, bs') =>
            if le_value n <=? blen bs' then Next bs' stk else Fail
        | None => Fail
        end
      else if Byte.eqb op STOP then
        match stk with
        | IVal v :: _ => Done v
        | _ => Fail
        end
      else if Byte.eqb op NONE then push PyNone bs stk
      else if Byte.eqb op NEWTRUE then push (PyBool true) bs stk
      else if Byte.eqb op NEWFALSE then push (PyBool false) bs stk
      else if Byte.eqb op BININT1 then
        match readn 1 bs with
        | Some (n, bs') => push (PyInt (le_value n)) bs' stk
        | None => Fail
        end
      else if Byte.eqb op BININT2 then
        match readn 2 bs with
        | Some (n, bs') => push (PyInt (le_value n)) bs' stk
        | None => Fail
        end
      else if Byte.eqb op BININT then
        match readn 4 bs with
        | Some (n, bs') => push (PyInt (decode_long n)) bs' stk
        | None => Fail
        end
      else if Byte.eqb op LONG1 then
        counted 1 bs (fun p bs' => push (PyInt (decode_long p)) bs' stk)
      else if Byte.eqb op LONG4 then
        match readn 4 bs with
        | Some (n, bs1) =>
            match readn (decode_long n) bs1 with
            | Some (p, bs') => push (PyInt (decode_long p)) bs' stk
            | None => Fail
            end
        | None => Fail
        end
      else if Byte.eqb op SHORT_BINUNICODE then
        counted 1 bs
          (fun p bs' => push (PyStr (string_of_list_byte p)) bs' stk)
      else if Byte.eqb op BINUNICODE then
        counted 4 bs
          (fun p bs' => push (PyStr (string_of_list_byte p)) bs' stk)
      else if Byte.eqb op BINUNICODE8 then
        counted 8 bs
          (fun p bs' => push (PyStr (string_of_list_byte p)) bs' stk)
      else if Byte.eqb op MEMOIZE then
        match stk with
        | IVal _ :: _ => Next bs stk
        | _ => Fail
        end
      else if Byte.eqb op MARK then Next bs (IMark :: stk)
      else if Byte.eqb op EMPTY_TUPLE then push (PyTuple []) bs stk
      else if Byte.eqb op TUPLE1 then
        match stk with
        | IVal a :: stk' => push (PyTuple [a]) bs stk'
        | _ => Fail
        end
      else if Byte.eqb op TUPLE2 then
        match stk with
        | IVal b :: IVal a :: stk' => push (PyTuple [a; b]) bs stk'
        | _ => Fail
        end
      else if Byte.eqb op TUPLE3 then
        match stk with
        | IVal c :: IVal b :: IVal a :: stk' =>
            push (PyTuple [a; b; c]) bs stk'
        | _ => Fail
        end
      else if Byte.eqb op TUPLE then
        match pop_mark stk [] with
        | Some (items, stk') => push (PyTuple items) bs stk'
        | None => Fail
        end
      else if Byte.eqb op EMPTY_LIST then push (PyList []) bs stk
      else if Byte.eqb op APPEND then
        match stk with
        | IVal x :: IVal (PyList l) :: stk' => push (PyList (l ++ [x])) bs stk'
        | _ => Fail
        end
      else if Byte.eqb op APPENDS then
        match pop_mark stk [] with
        | Some (items, IVal (PyList l) :: stk') =>
            push (PyList (l ++ items)) bs stk'
        | _ => Fail
        end
      else if Byte.eqb op EMPTY_DICT then push (PyDict []) bs stk
      else if Byte.eqb op SETITEM then
        match stk with
        | IVal x :: IVal k :: IVal (PyDict d) :: stk' =>
            if hashable k then push (PyDict (dict_set d k x)) bs stk'
            else Fail
        | _ => Fail
        end
      else if Byte.eqb op SETITEMS then
        match pop_mark stk [] with
        | Some (items, IVal (PyDict d) :: stk') =>
            match set_items d items with
            | Some d' => push (PyDict d') bs stk'
            | None => Fail
            end
        | _ => Fail
        end
      else Fail
  end.

Fixpoint run (fuel : nat) (bs : bytes) (stk : stack) : option pyval :=
  match fuel with
  | O => None
  | Datatypes.S fuel' =>
      match step bs stk with
      | Next bs' stk' => run fuel' bs' stk'
      | Done v => Some v
      | Fail => None
      end
  end.

(** [pickle.loads(bs)]; every opcode consumes at least one byte, so the
    fuel never runs out before the stream does. *)
Definition loads (bs : bytes) : option pyval :=
  run (Datatypes.S (List.length bs)) bs [].

(** [exec ops stk stk']: from any stack [stk], reading exactly the bytes
    [ops] leaves the stack [stk'], in at most one step per byte. *)
Definition exec (ops : bytes) (stk stk' : stack) : Prop :=
  exists k : nat,
    (k <= List.length ops)%nat /\
    forall (rest : bytes) (fuel : nat),
      run (k + fuel) (ops ++ rest) stk = run fuel rest stk'.

(** The objects [pickle] returns unchanged: every [dict] in them has
    hashable, pairwise unequal keys. *)
Fixpoint valid (v : pyval) : bool :=
  match v with
  | PyNone | PyBool _ | PyInt _ | PyStr _ | PyOpaque _ => true
  | PyTuple items | PyList items =>
      (fix all (l : list pyval) : bool :=
         match l with
         | [] => true
         | x :: l' => valid x && all l'
         end) items
  | PyDict items =>
      (fix all (l : list (pyval * pyval)) : bool :=
         match l with
         | [] => true
         | (k, x) :: l' =>
             hashable k && valid k && valid x
             && forallb (fun kx => negb (key_eqb k (fst kx))) l'
             && all l'
         end) items
  end.

(** The keys and values of a [dict], in the order they are pickled. *)
Fixpoint flat (items : list (pyval * pyval)) : list pyval :=
  match items with
  | [] => []
  | (k, x) :: l => k :: x :: flat l
  end.

(** What the round trip asks of one object: its opcodes, read from any
    stack, push the object back. *)
Definition loads_back (x : pyval) : Prop :=
  valid x = true ->
  forall ops stk, save x = Some ops -> exec ops stk (IVal x :: stk).

End Pickle.

Definition hex_of_bytes (bs : bytes) : string :=
  string_of_list_ascii (concat (map MD5.hexbyte bs)).

(** ** [pathlib]

    A path is its [parts] tuple: the root (["/"], or ["//"] for exactly
    two leading slashes) when the path is absolute, then the components.
    Empty components and ["."] are dropped when a string is parsed;
    [".."] is kept.  The file-system store below is keyed by such paths,
    so two different paths are two different files (no symbolic links,
    no [".."], a fixed working directory). *)

Abbreviation Path := (list string).

Definition slash : ascii := "/"%char.

(** [s.split('/')]. *)
Fixpoint split_slash (s : string) : list string :=
  match s with
  | EmptyString => [EmptyString]
  | String c s' =>
      if Ascii.eqb c slash then EmptyString :: split_slash s'
      else match split_slash s' with
           | x :: l => String c x :: l
           | [] => [String c EmptyString]
           end
  end.

Definition is_component (x : string) : bool :=
  negb (String.eqb x "") && negb (String.eqb x ".").

Definition root_of (s : string) : list string :=
  match s with
  | String c1 (String c2 (String c3 _)) =>
      if Ascii.eqb c1 slash then
        if Ascii.eqb c2 slash && negb (Ascii.eqb c3 slash)
        then ["//"%string] else ["/"%string]
      else []
  | String c1 (String c2 EmptyString) =>
      if Ascii.eqb c1 slash then
        if Ascii.eqb c2 slash then ["//"%string] else ["/"%string]
      else []
  | String c1 EmptyString => if Ascii.eqb c1 slash then ["/"%string] else []
  | EmptyString => []
  end.

(** [Path(s)]. *)
Definition Path_of_str (s : string) : Path :=
  root_of s ++ List.filter is_component (split_slash s).

(** [p / s]: an absolute right operand replaces the left one. *)
Definition joinpath (p : Path) (s : string) : Path :=
  match root_of s with
  | [] => p ++ Path_of_str s
  | _ :: _ => Path_of_str s
  end.

(** The root and the working directory: paths that are their own
    [parent]. *)
Definition is_anchor (p : Path) : bool :=
  match p with
  | [] => true
  | [r] => String.eqb r "/" || String.eqb r "//"
  | _ => false
  end.

(** [p.parent]. *)
Definition parent (p : Path) : Path :=
  if is_anchor p then p else removelast p.

(** ** The file system *)

Inductive node : Type :=
| Dir
| File (content : bytes).

Abbreviation FS := (gmap Path node).

(** What [os.stat] finds at [p]; the anchors always are directories. *)
Definition node_at (fs : FS) (p : Path) : option node :=
  if is_anchor p then Some Dir else fs !! p.

(** ** Exceptions and the environment *)

Inductive exn : Type :=
| SerializationError      (* pickling: [TypeError], [pickle.PicklingError] *)
| DeserializationError    (* unpickling: [pickle.UnpicklingError], [EOFError] *)
| FileExistsError
| FileNotFoundError
| NotADirectoryError
| IsADirectoryError
| Raised (e : pyval).     (* whatever the wrapped function raises *)

Inductive result (A : Type) : Type :=
| Return (a : A)
| Raise (e : exn).
Arguments Return {A} a.
Arguments Raise {A} e.

(** What a call does to its environment, in order. *)
Inductive event : Type :=
| EvCall (name : string) (args : list pyval) (kwargs : kwargs_t)
| EvExists (p : Path)
| EvOpenRead (p : Path)
| EvRead (p : Path)
| EvMkdir (p : Path)
| EvOpenWrite (p : Path)
| EvWrite (p : Path) (content : bytes).

(** The environment of a call: the file system, the directory
    [tempfile.gettempdir()] answers, and the events so far (newest
    first). *)
Record world : Type := World {
  fs : FS;
  tmpdir : string;
  trace : list event
}.

Definition M (A : Type) : Type := world -> result A * world.

Definition ret {A} (a : A) : M A := fun w => (Return a, w).

Definition raise {A} (e : exn) : M A := fun w => (Raise e, w).

Definition bind {A B} (m : M A) (k : A -> M B) : M B :=
  fun w =>
    match m w with
    | (Return a, w') => k a w'
    | (Raise e, w') => (Raise e, w')
    end.

Notation "'let*' x ':=' m 'in' k" := (bind m (fun x => k))
  (at level 10, x name, m at level 100, k at level 200).

Definition lift {A} (r : result A) : M A := fun w => (r, w).

Definition emit (ev : event) : M unit :=
  fun w => (Return tt, World (fs w) (tmpdir w) (ev :: trace w)).

Definition get_fs : M FS := fun w => (Return (fs w), w).

Definition put_fs (fs' : FS) : M unit :=
  fun w => (Return tt, World fs' (tmpdir w) (trace w)).

(** [tempfile.gettempdir()]. *)
Definition gettempdir : M string := fun w => (Return (tmpdir w), w).

(** [p.exists()]. *)
Definition Path_exists (p : Path) : M bool :=
  let* _ := emit (EvExists p) in
  let* fs := get_fs in
  ret (match node_at fs p with Some _ => true | None => false end).

(** [os.mkdir(p)]. *)
Definition os_mkdir (fs : FS) (p : Path) : result FS :=
  if is_anchor p then Raise FileExistsError
  else
    match node_at fs (parent p) with
    | None => Raise FileNotFoundError
    | Some (File _) => Raise NotADirectoryError
    | Some Dir =>
        match fs !! p with
        | Some _ => Raise FileExistsError
        | None => Return (<[p := Dir]> fs)
        end
    end.

Definition is_dir (fs : FS) (p : Path) : bool :=
  match node_at fs p with
  | Some Dir => true
  | _ => false
  end.

(** [p.mkdir(parents=False, exist_ok=True)]. *)
Definition mkdir_one (fs : FS) (p : Path) : result FS :=
  match os_mkdir fs p with
  | Return fs' => Return fs'
  | Raise FileNotFoundError => Raise FileNotFoundError
  | Raise e => if is_dir fs p then Return fs else Raise e
  end.

(** What a successful [mkdir] leaves: [p] is a directory, and the file
    system changed at most by a new directory at [p]. *)
Definition made (fs : FS) (p : Path) (fs1 : FS) : Prop :=
  (fs1 = <[p := Dir]> fs /\ is_anchor p = false
   /\ is_dir fs (parent p) = true /\ fs !! p = None)
  \/ (fs1 = fs /\ is_dir fs p = true).

(** [p.mkdir(parents=True, exist_ok=True)] for the path whose parts, last
    first, are [rp]: try [os.mkdir]; when the parent is missing, make the
    parent the same way and try once more. *)
Fixpoint mkdir_parents (fs : FS) (rp : list string) : result FS :=
  let p := rev rp in
  match os_mkdir fs p with
  | Return fs' => Return fs'
  | Raise FileNotFoundError =>
      match rp with
      | [] => Raise FileNotFoundError
      | _ :: rparent =>
          match mkdir_parents fs rparent with
          | Return fs1 => mkdir_one fs1 p
          | Raise e => Raise e
          end
      end
  | Raise e => if is_dir fs p then Return fs else Raise e
  end.

Definition Path_mkdir (p : Path) : M unit :=
  let* _ := emit (EvMkdir p) in
  let* fs := get_fs in
  let* fs' := lift (mkdir_parents fs (rev p)) in
  put_fs fs'.

(** [open(p, "rb")]; the file object is identified with its path. *)
Definition open_rb (p : Path) : M Path :=
  let* _ := emit (EvOpenRead p) in
  let* fs := get_fs in
  match node_at fs p with
  | Some (File _) => ret p
  | Some Dir => raise IsADirectoryError
  | None => raise FileNotFoundError
  end.

(** [open(p, "wb")]: creates the file, or truncates it. *)
Definition open_wb (p : Path) : M Path :=
  let* _ := emit (EvOpenWrite p) in
  let* fs := get_fs in
  match node_at fs (parent p), node_at fs p with
  | _, Some Dir => raise IsADirectoryError
  | Some Dir, _ => let* _ := put_fs (<[p := File []]> fs) in ret p
  | Some (File _), _ => raise NotADirectoryError
  | None, _ => raise FileNotFoundError
  end.

(** [pickle.load(f)]. *)
Definition pickle_load (f : Path) : M pyval :=
  let* _ := emit (EvRead f) in
  let* fs := get_fs in
  match fs !! f with
  | Some (File content) =>
      match Pickle.loads content with
      | Some v => ret v
      | None => raise DeserializationError
      end
  | _ => raise DeserializationError
  end.

(** [pickle.dump(v, f, protocol=pickle.HIGHEST_PROTOCOL)]: nothing reaches
    the file when the object cannot be pickled. *)
Definition pickle_dump (v : pyval) (f : Path) : M unit :=
  match Pickle.dumps Pickle.HIGHEST_PROTOCOL v with
  | Some content =>
      let* _ := emit (EvWrite f content) in
      let* fs := get_fs in
      put_fs (<[f := File content]> fs)
  | None => raise SerializationError
  end.

(** ** The wrapped function

    A function object: its [__name__] and what a call returns or raises.
    The function is deterministic and pure; its calls are counted through
    the [EvCall] events. *)

Record PyFunc : Type := {
  fn_name : string;
  fn_body : list pyval -> kwargs_t -> result pyval
}.

Definition call (func : PyFunc) (args : list pyval) (kwargs : kwargs_t)
  : M pyval :=
  let* _ := emit (EvCall (fn_name func) args kwargs) in
  lift (fn_body func args kwargs).

(** ** [_arg_hash] and [diskcache_fn] *)

(** [hashlib.md5(pickle.dumps((args, kwargs))).hexdigest()]. *)
Definition _arg_hash (args : list pyval) (kwargs : kwargs_t)
  : result string :=
  match Pickle.dumps Pickle.DEFAULT_PROTOCOL
          (PyTuple [PyTuple args; kwargs_dict kwargs]) with
  | Some b => Return (MD5.hexdigest b)
  | None => Raise SerializationError
  end.

(** The [cache_dir] argument of [diskcache_fn]. *)
Inductive cache_dir_t : Type :=
| CdNone
| CdStr (s : string)
| CdPath (p : Path).

(** The closure [diskcache_fn(cache_dir)(func)], applied to
    [*args, **kwargs].  The [_LOGGER.debug] calls are left out. *)
Definition wrapper (cache_dir : cache_dir_t) (func : PyFunc)
    (args : list pyval) (kwargs : kwargs_t) : M pyval :=
  let* key := lift (_arg_hash args kwargs) in
  let* cache_path :=
    match cache_dir with
    | CdNone =>
        let* tmp := gettempdir in
        ret (joinpath (Path_of_str tmp) "py_fn_cache")
    | CdStr s => ret (Path_of_str s)
    | CdPath p => ret p
    end in
  let cache_file :=
    joinpath cache_path (fn_name func ++ "_" ++ key ++ ".pkl") in
  let* hit := Path_exists cache_file in
  if hit then
    let* f := open_rb cache_file in
    pickle_load f
  else
    let* result := call func args kwargs in
    let* _ := Path_mkdir cache_path in
    let* f := open_wb cache_file in
    let* _ := pickle_dump result f in
    ret result.

(** [w] after the events [evs] (newest first), the file system
    untouched. *)
Definition logged (w : world) (evs : list event) : world :=
  World (fs w) (tmpdir w) (evs ++ trace w).

(** [diskcache_fn(cache_dir)] is the decorator [inner], and [inner(func)]
    the closure [wrapper]. *)
Definition inner (cache_dir : cache_dir_t) (func : PyFunc)
  : list pyval -> kwargs_t -> M pyval :=
  wrapper cache_dir func.

Definition diskcache_fn (cache_dir : cache_dir_t)
  : PyFunc -> list pyval -> kwargs_t -> M pyval :=
  inner cache_dir.

(** The two branches of [wrapper], by name. *)
Definition on_hit (cache_file : Path) : M pyval :=
  let* f := open_rb cache_file in
  pickle_load f.

Definition on_miss (func : PyFunc) (args : list pyval) (kwargs : kwargs_t)
    (cache_path cache_file : Path) : M pyval :=
  let* result := call func args kwargs in
  let* _ := Path_mkdir cache_path in
  let* f := open_wb cache_file in
  let* _ := pickle_dump result f in
  ret result.

(** ** Observations on a call *)

(** The cache directory the wrapper resolves [cache_dir] to. *)
Definition cache_path_of (cache_dir : cache_dir_t) (w : world) : Path :=
  match cache_dir with
  | CdNone => joinpath (Path_of_str (tmpdir w)) "py_fn_cache"
  | CdStr s => Path_of_str s
  | CdPath p => p
  end.

(** [f"{func.__name__}_{key}.pkl"]. *)
Definition artifact_name (name key : string) : string :=
  name ++ "_" ++ key ++ ".pkl".

(** The artifact path of a call. *)
Definition cache_file_of (cache_dir : cache_dir_t) (w : world)
    (name key : string) : Path :=
  joinpath (cache_path_of cache_dir w) (artifact_name name key).

(** The pair (function, arguments) is Cached: its artifact exists. *)
Definition cached (cache_dir : cache_dir_t) (func : PyFunc)
    (args : list pyval) (kwargs : kwargs_t) (w : world) : bool :=
  match _arg_hash args kwargs with
  | Return key =>
      match node_at (fs w) (cache_file_of cache_dir w (fn_name func) key) with
      | Some _ => true
      | None => false
      end
  | Raise _ => false
  end.

(** The calls of wrapped functions so far, newest first: the call
    counter. *)
Fixpoint invocations (tr : list event)
  : list (string * list pyval * kwargs_t) :=
  match tr with
  | [] => []
  | EvCall name args kwargs :: tr' => (name, args, kwargs) :: invocations tr'
  | _ :: tr' => invocations tr'
  end.

(** The events of a look-up: they read the file system and change
    nothing. *)
Definition is_read_event (ev : event) : bool :=
  match ev with
  | EvExists _ | EvOpenRead _ | EvRead _ => true
  | _ => false
  end.

(** Every entry of the file system sits in a directory. *)
Definition fs_wf (fs : FS) : Prop :=
  forall (q : Path) (n : node), fs !! q = Some n -> is_dir fs (parent q) = true.

(** An object [pickle] refuses occurs in [v]. *)
Fixpoint has_opaque (v : pyval) : bool :=
  match v with
  | PyNone | PyBool _ | PyInt _ | PyStr _ => false
  | PyTuple items | PyList items =>
      (fix any (l : list pyval) : bool :=
         match l with
         | [] => false
         | x :: l' => has_opaque x || any l'
         end) items
  | PyDict items =>
      (fix any (l : list (pyval * pyval)) : bool :=
         match l with
         | [] => false
         | (k, x) :: l' => has_opaque k || has_opaque x || any l'
         end) items
  | PyOpaque _ => true
  end.

(** No ['/'] occurs in [s]: [s] is one path component, as every declared
    function name is. *)
Definition slash_free (s : string) : bool :=
  forallb (fun c => negb (Ascii.eqb c slash)) (list_ascii_of_string s).

(** ** Sample functions and environments *)

Definition add : PyFunc := {|
  fn_name := "add";
  fn_body := fun args _ =>
    match args with
    | [PyInt a; PyInt b] => Return (PyInt (a + b))
    | _ => Raise (Raised (PyStr "TypeError"))
    end
|}.

(** [def handle(): return open(...)]: returns an object [pickle]
    refuses. *)
Definition handle : PyFunc := {|
  fn_name := "handle";
  fn_body := fun _ _ => Return (PyOpaque "io.BufferedReader")
|}.

(** [def boom(): raise ValueError]. *)
Definition boom : PyFunc := {|
  fn_name := "boom";
  fn_body := fun _ _ => Raise (Raised (PyStr "ValueError"))
|}.

(** Another function that declares the name [add]. *)
Definition add_other : PyFunc := {|
  fn_name := "add";
  fn_body := fun args _ =>
    match args with
    | [PyInt a; PyInt b] => Return (PyInt (a * b))
    | _ => Raise (Raised (PyStr "TypeError"))
    end
|}.

(** The keyword arguments of [f(a=1, b=2)] and of [f(b=2, a=1)]. *)
Definition kw_ab : kwargs_t := [("a", PyInt 1); ("b", PyInt 2)]%string.
Definition kw_ba : kwargs_t := [("b", PyInt 2); ("a", PyInt 1)]%string.

(** An empty file system, with [/tmp] as the temporary directory. *)
Definition w0 : world := World ∅ "/tmp" [].

(** ** Callers: sequences of calls, clean-up, the test suite *)

(** One call of a wrapped function: which decorator, which function,
    which arguments. *)
Record call_t : Type := {
  c_dir : cache_dir_t;
  c_func : PyFunc;
  c_args : list pyval;
  c_kwargs : kwargs_t
}.

(** The environment after the calls [cs], in order, whatever each one
    returned or raised. *)
Fixpoint run_calls (cs : list call_t) (w : world) : world :=
  match cs with
  | [] => w
  | c :: cs' =>
      run_calls cs'
        (snd (wrapper (c_dir c) (c_func c) (c_args c) (c_kwargs c) w))
  end.

(** The same call [n] times over: the outcomes, first call first, and
    the environment at the end. *)
Fixpoint call_n (n : nat) (cache_dir : cache_dir_t) (func : PyFunc)
    (args : list pyval) (kwargs : kwargs_t) (w : world)
  : list (result pyval) * world :=
  match n with
  | O => ([], w)
  | S n' =>
      let '(r, w1) := wrapper cache_dir func args kwargs w in
      let '(rs, w2) := call_n n' cache_dir func args kwargs w1 in
      (r :: rs, w2)
  end.

(** [os.remove(p)], the clean-up step of the test: an action of the
    caller, which the trace of the wrapper's events does not record. *)
Definition os_remove (p : Path) : M unit :=
  let* fs := get_fs in
  match node_at fs p with
  | Some (File _) => put_fs (delete p fs)
  | Some Dir => raise IsADirectoryError
  | None => raise FileNotFoundError
  end.

(** [a == b] on the fragment: numbers by value ([bool] is a subtype of
    [int]), sequences item by item, a [dict] by its keys and their values
    whatever the order, an opaque object only with itself. *)
Fixpoint py_eqb (a b : pyval) : bool :=
  match a, b with
  | PyNone, PyNone => true
  | PyBool x, PyBool y => Bool.eqb x y
  | PyBool x, PyInt z | PyInt z, PyBool x => z =? (if x then 1 else 0)
  | PyInt x, PyInt y => x =? y
  | PyStr s, PyStr t => String.eqb s t
  | PyOpaque s, PyOpaque t => String.eqb s t
  | PyTuple l, PyTuple m | PyList l, PyList m =>
      (fix all2 (l m : list pyval) : bool :=
         match l, m with
         | [], [] => true
         | x :: l', y :: m' => py_eqb x y && all2 l' m'
         | _, _ => false
         end) l m
  | PyDict d, PyDict e =>
      (List.length d =? List.length e)%nat
      && (fix all (d : list (pyval * pyval)) : bool :=
            match d with
            | [] => true
            | (k, x) :: d' =>
                (fix find (e : list (pyval * pyval)) : bool :=
                   match e with
                   | [] => false
                   | (k', x') :: e' =>
                       if Pickle.key_eqb k' k then py_eqb x x' else find e'
                   end) e
                && all d'
            end) d
  | _, _ => false
  end.

(** The loops of [py_eqb], by name. *)
Definition all2_eqb : list pyval -> list pyval -> bool :=
  fix all2 (l m : list pyval) : bool :=
    match l, m with
    | [], [] => true
    | x :: l', y :: m' => py_eqb x y && all2 l' m'
    | _, _ => false
    end.

Definition dict_find (k x : pyval) : list (pyval * pyval) -> bool :=
  fix find (e : list (pyval * pyval)) : bool :=
    match e with
    | [] => false
    | (k', x') :: e' =>
        if Pickle.key_eqb k' k then py_eqb x x' else find e'
    end.

Definition dict_all (e : list (pyval * pyval))
  : list (pyval * pyval) -> bool :=
  fix all (d : list (pyval * pyval)) : bool :=
    match d with
    | [] => true
    | (k, x) :: d' => dict_find k x e && all d'
    end.

(** [unittest]'s [AssertionError]. *)
Definition AssertionError : exn := Raised (PyStr "AssertionError").

(** [self.assertTrue(b)] and [self.assertEqual(a, b)]. *)
Definition assertTrue (b : bool) : M unit :=
  if b then ret tt else raise AssertionError.

Definition assertEqual (a b : pyval) : M unit :=
  if py_eqb a b then ret tt else raise AssertionError.

(** [a + b] on the fragment. *)
Definition py_add (a b : pyval) : result pyval :=
  let num v :=
    match v with
    | PyInt z => Some z
    | PyBool x => Some (if x then 1 else 0)
    | _ => None
    end in
  match a, b with
  | PyStr s, PyStr t => Return (PyStr (s ++ t))
  | PyTuple l, PyTuple m => Return (PyTuple (l ++ m))
  | PyList l, PyList m => Return (PyList (l ++ m))
  | _, _ =>
      match num a, num b with
      | Some x, Some y => Return (PyInt (x + y))
      | _, _ => Raise (Raised (PyStr "TypeError"))
      end
  end.

(** The parameters [(a, b)] of the test's functions, bound from a call's
    positional and named arguments. *)
Definition bind_a_b (args : list pyval) (kwargs : kwargs_t)
  : option (pyval * pyval) :=
  match args, kwargs with
  | [a; b], [] => Some (a, b)
  | [a], [(k, b)] => if String.eqb k "b" then Some (a, b) else None
  | [], [(k1, x1); (k2, x2)] =>
      if String.eqb k1 "a" && String.eqb k2 "b" then Some (x1, x2)
      else if String.eqb k1 "b" && String.eqb k2 "a" then Some (x2, x1)
      else None
  | _, _ => None
  end.

(** [def uncached_add(a, b): return a + b]. *)
Definition uncached_add (args : list pyval) (kwargs : kwargs_t)
  : result pyval :=
  match bind_a_b args kwargs with
  | Some (a, b) => py_add a b
  | None => Raise (Raised (PyStr "TypeError"))
  end.

(** The test's [def add(a, b): return uncached_add(a, b)], before
    decoration. *)
Definition test_add : PyFunc := {|
  fn_name := "add";
  fn_body := uncached_add
|}.

(** [TestDiskcacheFn.test_diskcache_fn]. *)
Definition test_diskcache_fn : M unit :=
  let add := diskcache_fn (CdStr "/tmp/fn_cache") test_add in
  let input := [PyInt 1; PyInt 2] in
  let* res := add input [] in
  let* key := lift (_arg_hash input []) in
  let cache_file :=
    joinpath (Path_of_str "/tmp/fn_cache") ("add_" ++ key ++ ".pkl") in
  let* found := Path_exists cache_file in
  let* _ := assertTrue found in
  let* cached_res := add input [] in
  let* _ := assertEqual res cached_res in
  let* uncached_res := lift (uncached_add input []) in
  let* _ := assertEqual cached_res uncached_res in
  os_remove cache_file.

(** A lower-case hexadecimal digit. *)
Definition is_hexdigit (c : ascii) : bool :=
  existsb (Ascii.eqb c) (list_ascii_of_string "0123456789abcdef").

(** * Properties *)

(** ** Test vectors *)

Example md5_empty :
  MD5.hexdigest [] = "d41d8cd98f00b204e9800998ecf8427e"%string.
Proof. vm_compute. reflexivity. Qed.

Example md5_abc :
  MD5.hexdigest (list_byte_of_string "abc")
  = "900150983cd24fb0d6963f7d28e17f72"%string.
Proof. vm_compute. reflexivity. Qed.

Example md5_two_blocks :
  MD5.hexdigest (list_byte_of_string
    "12345678901234567890123456789012345678901234567890123456789012345678901234567890")
  = "57edf4a22be3c955ac49da2e2107b67a"%string.
Proof. vm_compute. reflexivity. Qed.

Example dumps_args_1_2 :
  option_map hex_of_bytes
    (Pickle.dumps 4 (PyTuple [PyTuple [PyInt 1; PyInt 2]; PyDict []]))
  = Some "8004950b000000000000004b014b0286947d9486942e"%string.
Proof. vm_compute. reflexivity. Qed.

Example dumps_kwargs_a_b :
  option_map hex_of_bytes
    (Pickle.dumps 4 (PyTuple [PyTuple []; kwargs_dict [("a", PyInt 1); ("b", PyInt 2)]%string]))
  = Some "8004951400000000000000297d94288c0161944b018c0162944b027586942e"%string.
Proof. vm_compute. reflexivity. Qed.

Example loads_dumps_sample :
  let v := PyTuple [PyInt (-5); PyStr "héllo"; PyList [PyNone; PyBool true];
                    PyDict [(PyStr "k", PyTuple [PyInt 70000; PyInt (2 ^ 70);
                                                 PyInt (- 2 ^ 63); PyInt 4])];
                    PyDict [(PyInt 1, PyInt 2); (PyInt 3, PyList [])]]%string in
  Pickle.valid v = true /\
  match Pickle.dumps 5 v with
  | Some b => Pickle.loads b = Some v
  | None => False
  end.
Proof. vm_compute. split; reflexivity. Qed.

(** ** Bytes and little-endian numbers *)

Lemma Z_of_byte_range (b : byte) : 0 <= Z_of_byte b < 256.
Proof.
  unfold Z_of_byte. pose proof (Byte.to_N_bounded b). lia.
Qed.

Lemma Z_of_byte_of_Z (z : Z) : Z_of_byte (byte_of_Z z) = z mod 256.
Proof.
  unfold Z_of_byte, byte_of_Z.
  assert (Hr : 0 <= z mod 256 < 256) by (apply Z.mod_pos_bound; lia).
  destruct (Byte.of_N (Z.to_N (z mod 256))) as [b|] eqn:E.
  - apply Byte.to_of_N in E. rewrite E. lia.
  - apply Byte.of_N_None_iff in E. lia.
Qed.

Lemma length_le_bytes (n : nat) (z : Z) : List.length (le_bytes n z) = n.
Proof. revert z. induction n; intros; simpl; auto. Qed.

Lemma blen_le_bytes (n : nat) (z : Z) : blen (le_bytes n z) = Z.of_nat n.
Proof. unfold blen. now rewrite length_le_bytes. Qed.

Lemma blen_app (a b : bytes) : blen (a ++ b) = blen a + blen b.
Proof. unfold blen. rewrite length_app. lia. Qed.

Lemma blen_nonneg (a : bytes) : 0 <= blen a.
Proof. unfold blen. lia. Qed.

Lemma le_value_le_bytes (n : nat) (z : Z) :
  le_value (le_bytes n z) = z mod 256 ^ Z.of_nat n.
Proof.
  revert z. induction n as [|n IH]; intros z.
  - simpl. now rewrite Z.mod_1_r.
  - cbn [le_bytes le_value]. rewrite IH, Z_of_byte_of_Z.
    rewrite Nat2Z.inj_succ, Z.pow_succ_r by lia.
    rewrite Z.rem_mul_r by lia. lia.
Qed.

Lemma le_value_small (n : nat) (z : Z) :
  0 <= z < 256 ^ Z.of_nat n -> le_value (le_bytes n z) = z.
Proof. intros. rewrite le_value_le_bytes. now apply Z.mod_small. Qed.

Lemma last_le_bytes (n : nat) (z : Z) :
  Z_of_byte (List.last (le_bytes (S n) z) x00) = (z / 256 ^ Z.of_nat n) mod 256.
Proof.
  revert z. induction n as [|n IH]; intros z.
  - simpl. rewrite Z_of_byte_of_Z. now rewrite Z.div_1_r.
  - change (le_bytes (S (S n)) z) with (byte_of_Z z :: le_bytes (S n) (z / 256)).
    assert (E : forall (b : byte) l, l <> [] -> List.last (b :: l) x00 = List.last l x00).
    { intros b [|c l] Hl; [congruence | reflexivity]. }
    rewrite E by (simpl; congruence). rewrite IH.
    rewrite Nat2Z.inj_succ, Z.pow_succ_r by lia.
    rewrite Z.div_div by lia. reflexivity.
Qed.

Lemma firstn_le_bytes (n m : nat) (z : Z) :
  (m <= n)%nat -> firstn m (le_bytes n z) = le_bytes m z.
Proof.
  revert m z. induction n as [|n IH]; intros [|m] z H; simpl; try lia; auto.
  f_equal. apply IH. lia.
Qed.

Lemma nth_le_bytes (n i : nat) (z : Z) :
  (i < n)%nat ->
  Z_of_byte (nth i (le_bytes n z) x00) = (z / 256 ^ Z.of_nat i) mod 256.
Proof.
  revert i z. induction n as [|n IH]; intros [|i] z H; try lia.
  - simpl. rewrite Z_of_byte_of_Z, Z.div_1_r. reflexivity.
  - cbn [le_bytes nth]. rewrite IH by lia.
    rewrite Nat2Z.inj_succ, Z.pow_succ_r by lia.
    rewrite Z.div_div by lia. reflexivity.
Qed.

(** ** The pickle round trip *)

Module PickleFacts.
Import Pickle.

(** Two's complement decoding undoes the encoding on [n] bytes within the
    signed range. *)
Lemma decode_long_le_bytes (n : nat) (z : Z) :
  - (128 * 256 ^ Z.of_nat n) <= z < 128 * 256 ^ Z.of_nat n ->
  decode_long (le_bytes (S n) z) = z.
Proof.
  intros Hz. unfold decode_long.
  rewrite last_le_bytes, le_value_le_bytes, blen_le_bytes.
  rewrite Nat2Z.inj_succ, Z.pow_succ_r by lia.
  set (B := 256 ^ Z.of_nat n) in *.
  assert (HB : 0 < B) by (apply Z.pow_pos_nonneg; lia).
  destruct (Z.ltb_spec z 0) as [Hneg|Hpos].
  - assert (E1 : z mod (256 * B) = z + 256 * B).
    { symmetry. apply Z.mod_unique with (q := -1); lia. }
    assert (E2 : (z / B) mod 256 = z / B + 256).
    { symmetry. apply Z.mod_unique with (q := -1).
      - left. assert (-128 <= z / B) by (apply Z.div_le_lower_bound; lia).
        assert (z / B < 0) by (apply Z.div_lt_upper_bound; lia). lia.
      - lia. }
    rewrite E1, E2.
    assert (-128 <= z / B) by (apply Z.div_le_lower_bound; lia).
    destruct (Z.leb_spec 128 (z / B + 256)); lia.
  - rewrite (Z.mod_small z) by lia.
    assert (z / B < 128) by (apply Z.div_lt_upper_bound; lia).
    assert (0 <= z / B) by (apply Z.div_pos; lia).
    rewrite (Z.mod_small (z / B)) by lia.
    destruct (Z.leb_spec 128 (z / B)); lia.
Qed.

Lemma high_bit_byte (b : byte) :
  (Z.land (Z_of_byte b) 128 =? 0) = (Z_of_byte b <? 128).
Proof. destruct b; reflexivity. Qed.

Lemma pow256 (m : nat) : 256 ^ Z.of_nat m = 2 ^ (8 * Z.of_nat m).
Proof. rewrite Z.pow_mul_r by lia. reflexivity. Qed.

Lemma bit_length_bound (z : Z) : Z.abs z < 2 ^ bit_length z.
Proof.
  unfold bit_length. destruct (Z.eqb_spec z 0) as [->|Hz]; [simpl; lia|].
  assert (Ha : 0 < Z.abs z) by lia.
  pose proof (Z.log2_spec _ Ha) as [_ H]. now rewrite <- Z.add_1_r in H.
Qed.

Lemma bit_length_nonneg (z : Z) : 0 <= bit_length z.
Proof.
  unfold bit_length. destruct (Z.eqb_spec z 0); [lia|].
  pose proof (Z.log2_nonneg (Z.abs z)). lia.
Qed.

Lemma decode_encode_long (z : Z) : decode_long (encode_long z) = z.
Proof.
  unfold encode_long. destruct (Z.eqb_spec z 0) as [->|Hz]; [reflexivity|].
  pose proof (bit_length_bound z) as Hb.
  pose proof (bit_length_nonneg z) as Hn.
  rewrite Z.shiftr_div_pow2 by lia. change (2 ^ 3) with 8.
  set (q := bit_length z / 8) in *.
  assert (Hq : 0 <= q) by (apply Z.div_pos; lia).
  assert (Hq8 : bit_length z < 8 * q + 8).
  { pose proof (Z.mul_succ_div_gt (bit_length z) 8). unfold q. lia. }
  replace (Z.to_nat (q + 1)) with (S (Z.to_nat q)) by lia.
  set (m := Z.to_nat q).
  assert (Hrange : - (128 * 256 ^ Z.of_nat m) <= z < 128 * 256 ^ Z.of_nat m).
  { rewrite pow256. change 128 with (2 ^ 7). rewrite <- Z.pow_add_r by lia.
    assert (2 ^ bit_length z <= 2 ^ (7 + 8 * Z.of_nat m)).
    { apply Z.pow_le_mono_r; lia. }
    lia. }
  match goal with |- decode_long (if ?c then _ else _) = _ =>
    destruct c eqn:Hc end.
  2: now apply decode_long_le_bytes.
  apply andb_prop in Hc as [Hc H2]. apply andb_prop in Hc as [Hc H1].
  apply andb_prop in Hc as [Hneg Hm].
  apply Z.ltb_lt in Hneg. apply Z.ltb_lt in Hm.
  destruct m as [|m'] eqn:Em; [lia|].
  replace (S (S m') - 1)%nat with (S m') in * by lia.
  replace (S (S m') - 2)%nat with m' in * by lia.
  rewrite firstn_le_bytes by lia.
  rewrite high_bit_byte in H2. apply negb_true_iff, Z.ltb_ge in H2.
  apply Z.eqb_eq in H1.
  rewrite nth_le_bytes in H1, H2 by lia.
  apply decode_long_le_bytes.
  rewrite Nat2Z.inj_succ, Z.pow_succ_r in Hrange, H1 by lia.
  set (B := 256 ^ Z.of_nat m') in *.
  assert (HB : 0 < B) by (apply Z.pow_pos_nonneg; lia).
  assert (Hd1 : z / (256 * B) = -1).
  { assert (-128 <= z / (256 * B)) by (apply Z.div_le_lower_bound; lia).
    assert (z / (256 * B) < 0) by (apply Z.div_lt_upper_bound; lia).
    destruct (Z.eq_dec (z / (256 * B)) (-1)) as [E|E]; [exact E|].
    rewrite <- (Z.mod_unique (z / (256 * B)) 256 (-1) (z / (256 * B) + 256)) in H1; lia. }
  assert (Hlow : - (256 * B) <= z).
  { pose proof (Z.mul_div_le z (256 * B)). pose proof (Z.div_mod z (256 * B)).
    pose proof (Z.mod_pos_bound z (256 * B)). lia. }
  assert (-256 <= z / B) by (apply Z.div_le_lower_bound; lia).
  assert (z / B < 0) by (apply Z.div_lt_upper_bound; lia).
  rewrite <- (Z.mod_unique (z / B) 256 (-1) (z / B + 256)) in H2 by lia.
  pose proof (Z.div_mod z B). pose proof (Z.mod_pos_bound z B). nia.
Qed.

Lemma readn_app (a rest : bytes) : readn (blen a) (a ++ rest) = Some (a, rest).
Proof.
  unfold readn. rewrite blen_app.
  pose proof (blen_nonneg a). pose proof (blen_nonneg rest).
  destruct (Z.leb_spec 0 (blen a)); [|lia].
  destruct (Z.leb_spec (blen a) (blen a + blen rest)); [|lia].
  unfold blen. rewrite Nat2Z.id. simpl.
  now rewrite take_app_length, drop_app_length.
Qed.

Lemma readn_le_bytes (n : nat) (z : Z) (rest : bytes) :
  readn (Z.of_nat n) (le_bytes n z ++ rest) = Some (le_bytes n z, rest).
Proof. rewrite <- (blen_le_bytes n z) at 1. apply readn_app. Qed.

Lemma counted_app (w : nat) (payload rest : bytes) (k : bytes -> bytes -> outcome) :
  blen payload < 256 ^ Z.of_nat w ->
  counted (Z.of_nat w) (le_bytes w (blen payload) ++ payload ++ rest) k
  = k payload rest.
Proof.
  intros H. unfold counted. rewrite readn_le_bytes.
  rewrite le_value_small by (pose proof (blen_nonneg payload); lia).
  now rewrite readn_app.
Qed.

(** *** Running opcode sequences *)

Lemma exec_nil (stk : stack) : exec [] stk stk.
Proof. exists 0%nat. split; [simpl; lia | reflexivity]. Qed.

Lemma exec_app (a b : bytes) (s1 s2 s3 : stack) :
  exec a s1 s2 -> exec b s2 s3 -> exec (a ++ b) s1 s3.
Proof.
  intros (k1 & L1 & H1) (k2 & L2 & H2). exists (k1 + k2)%nat. split.
  - rewrite length_app. lia.
  - intros rest fuel. rewrite <- app_assoc, <- Nat.add_assoc, H1. apply H2.
Qed.

Lemma exec_step (ops : bytes) (stk stk' : stack) :
  ops <> [] ->
  (forall rest, step (ops ++ rest) stk = Next rest stk') ->
  exec ops stk stk'.
Proof.
  intros Hne H. exists 1%nat. split.
  - destruct ops; [congruence | simpl; lia].
  - intros rest fuel. simpl. now rewrite H.
Qed.

Lemma exec_cons (op : byte) (ops : bytes) (s1 s2 s3 : stack) :
  exec [op] s1 s2 -> exec ops s2 s3 -> exec (op :: ops) s1 s3.
Proof. apply (exec_app [op]). Qed.

Lemma exec_snoc (op : byte) (ops : bytes) (s1 s2 s3 : stack) :
  exec ops s1 s2 -> exec [op] s2 s3 -> exec (ops ++ [op]) s1 s3.
Proof. apply exec_app. Qed.

Lemma exec_memoize (v : pyval) (stk : stack) :
  exec [MEMOIZE] (IVal v :: stk) (IVal v :: stk).
Proof. apply exec_step; [discriminate | reflexivity]. Qed.

Lemma exec_mark (stk : stack) : exec [MARK] stk (IMark :: stk).
Proof. apply exec_step; [discriminate | reflexivity]. Qed.

(** One equation per opcode of [step]. *)
Lemma step_BININT1 bs stk :
  step (BININT1 :: bs) stk
  = match readn 1 bs with
    | Some (n, bs') => push (PyInt (le_value n)) bs' stk
    | None => Fail
    end.
Proof. reflexivity. Qed.

Lemma step_BININT2 bs stk :
  step (BININT2 :: bs) stk
  = match readn 2 bs with
    | Some (n, bs') => push (PyInt (le_value n)) bs' stk
    | None => Fail
    end.
Proof. reflexivity. Qed.

Lemma step_BININT bs stk :
  step (BININT :: bs) stk
  = match readn 4 bs with
    | Some (n, bs') => push (PyInt (decode_long n)) bs' stk
    | None => Fail
    end.
Proof. reflexivity. Qed.

Lemma step_LONG1 bs stk :
  step (LONG1 :: bs) stk
  = counted 1 bs (fun p bs' => push (PyInt (decode_long p)) bs' stk).
Proof. reflexivity. Qed.

Lemma step_LONG4 bs stk :
  step (LONG4 :: bs) stk
  = match readn 4 bs with
    | Some (n, bs1) =>
        match readn (decode_long n) bs1 with
        | Some (p, bs') => push (PyInt (decode_long p)) bs' stk
        | None => Fail
        end
    | None => Fail
    end.
Proof. reflexivity. Qed.

Lemma step_unicode (op : byte) (w : Z) bs stk :
  (op, w) = (SHORT_BINUNICODE, 1) \/ (op, w) = (BINUNICODE, 4)
  \/ (op, w) = (BINUNICODE8, 8) ->
  step (op :: bs) stk
  = counted w bs (fun p bs' => push (PyStr (string_of_list_byte p)) bs' stk).
Proof. intros [E|[E|E]]; injection E as -> ->; reflexivity. Qed.

Local Opaque le_bytes.

Lemma exec_save_long (z : Z) (ops : bytes) (stk : stack) :
  save_long z = Some ops -> exec ops stk (IVal (PyInt z) :: stk).
Proof.
  unfold save_long. intros H.
  destruct (_ && _) eqn:E1 in H.
  { injection H as <-. apply andb_prop in E1 as [?%Z.leb_le ?%Z.leb_le].
    apply exec_step; [discriminate|]. intros rest.
    rewrite <- app_comm_cons, step_BININT1.
    rewrite (readn_le_bytes 1), le_value_small; [reflexivity|]. simpl; lia. }
  destruct (_ && _) eqn:E2 in H.
  { injection H as <-. apply andb_prop in E2 as [?%Z.leb_le ?%Z.leb_le].
    apply exec_step; [discriminate|]. intros rest.
    rewrite <- app_comm_cons, step_BININT2.
    rewrite (readn_le_bytes 2), le_value_small; [reflexivity|]. simpl; lia. }
  destruct (_ && _) eqn:E3 in H.
  { injection H as <-. apply andb_prop in E3 as [?%Z.leb_le ?%Z.leb_le].
    apply exec_step; [discriminate|]. intros rest.
    rewrite <- app_comm_cons, step_BININT.
    rewrite (readn_le_bytes 4), (decode_long_le_bytes 3); [reflexivity|].
    simpl; lia. }
  pose proof (blen_nonneg (encode_long z)) as Hn.
  destruct (Z.ltb_spec (blen (encode_long z)) 256) as [Hlt|Hge].
  { injection H as <-.
    apply exec_step; [discriminate|]. intros rest.
    rewrite <- app_comm_cons, step_LONG1, <- app_assoc.
    rewrite (counted_app 1) by (simpl; lia).
    now rewrite decode_encode_long. }
  destruct (Z.leb_spec (blen (encode_long z)) 0x7fffffff) as [Hle|]; [|discriminate].
  injection H as <-.
  apply exec_step; [discriminate|]. intros rest.
  rewrite <- app_comm_cons, step_LONG4, <- app_assoc.
  rewrite (readn_le_bytes 4), (decode_long_le_bytes 3) by (simpl; lia).
  now rewrite readn_app, decode_encode_long.
Qed.

Lemma exec_unicode (op : byte) (w : nat) (s : string) (stk : stack) :
  (op, Z.of_nat w) = (SHORT_BINUNICODE, 1) \/ (op, Z.of_nat w) = (BINUNICODE, 4)
  \/ (op, Z.of_nat w) = (BINUNICODE8, 8) ->
  blen (list_byte_of_string s) < 256 ^ Z.of_nat w ->
  exec (op :: le_bytes w (blen (list_byte_of_string s))
           ++ list_byte_of_string s ++ [MEMOIZE])
       stk (IVal (PyStr s) :: stk).
Proof.
  intros Hop Hlen.
  rewrite app_assoc, app_comm_cons.
  eapply exec_snoc; [|apply exec_memoize].
  apply exec_step; [discriminate|]. intros rest.
  rewrite <- app_comm_cons, <- app_assoc, (step_unicode _ _ _ _ Hop).
  rewrite counted_app by assumption.
  now rewrite string_of_list_byte_of_string.
Qed.

Lemma exec_save_str (s : string) (ops : bytes) (stk : stack) :
  save_str s = Some ops -> exec ops stk (IVal (PyStr s) :: stk).
Proof.
  unfold save_str, maxsize. intros H.
  pose proof (blen_nonneg (list_byte_of_string s)) as Hn.
  destruct (Z.leb_spec (blen (list_byte_of_string s)) 0xff).
  { injection H as <-. apply (exec_unicode _ 1); [auto | simpl; lia]. }
  destruct (Z.leb_spec (blen (list_byte_of_string s)) 0xffffffff).
  { injection H as <-. apply (exec_unicode _ 4); [auto | simpl; lia]. }
  destruct (Z.leb_spec (blen (list_byte_of_string s)) (2 ^ 63 - 1));
    [|discriminate].
  injection H as <-. apply (exec_unicode _ 8); [auto | simpl; lia].
Qed.

(** *** Containers *)

Lemma pyval_ind' (P : pyval -> Prop) :
  P PyNone ->
  (forall b, P (PyBool b)) ->
  (forall z, P (PyInt z)) ->
  (forall s, P (PyStr s)) ->
  (forall l, Forall P l -> P (PyTuple l)) ->
  (forall l, Forall P l -> P (PyList l)) ->
  (forall l, Forall (fun kx => P (fst kx) /\ P (snd kx)) l -> P (PyDict l)) ->
  (forall t, P (PyOpaque t)) ->
  forall v, P v.
Proof.
  intros HN HB HI HS HT HL HD HO.
  fix IH 1. intros [ |b|z|s|l|l|l|t].
  - exact HN.
  - apply HB.
  - apply HI.
  - apply HS.
  - apply HT.
    exact ((fix go (l : list pyval) : Forall P l :=
              match l with
              | [] => @List.Forall_nil _ P
              | x :: l' => @List.Forall_cons _ P x l' (IH x) (go l')
              end) l).
  - apply HL.
    exact ((fix go (l : list pyval) : Forall P l :=
              match l with
              | [] => @List.Forall_nil _ P
              | x :: l' => @List.Forall_cons _ P x l' (IH x) (go l')
              end) l).
  - apply HD.
    exact ((fix go (l : list (pyval * pyval))
              : Forall (fun kx => P (fst kx) /\ P (snd kx)) l :=
              match l with
              | [] => @List.Forall_nil _ _
              | (k, x) :: l' =>
                  @List.Forall_cons _ _ (k, x) l' (conj (IH k) (IH x)) (go l')
              end) l).
  - apply HO.
Qed.

Lemma valid_tuple (l : list pyval) : valid (PyTuple l) = forallb valid l.
Proof.
  induction l as [|x l IH]; [reflexivity|].
  change (valid (PyTuple (x :: l))) with (valid x && valid (PyTuple l)).
  now rewrite IH.
Qed.

Lemma valid_list (l : list pyval) : valid (PyList l) = forallb valid l.
Proof.
  induction l as [|x l IH]; [reflexivity|].
  change (valid (PyList (x :: l))) with (valid x && valid (PyList l)).
  now rewrite IH.
Qed.

Lemma valid_dict_cons (k x : pyval) (l : list (pyval * pyval)) :
  valid (PyDict ((k, x) :: l))
  = hashable k && valid k && valid x
    && forallb (fun kx => negb (key_eqb k (fst kx))) l
    && valid (PyDict l).
Proof. reflexivity. Qed.

Lemma pop_mark_rev (l acc : list pyval) (stk : stack) :
  pop_mark (rev (map IVal l) ++ IMark :: stk) acc = Some (l ++ acc, stk).
Proof.
  revert acc. induction l as [|x l IH] using rev_ind; intros acc.
  - reflexivity.
  - rewrite map_app, rev_app_distr. simpl. rewrite IH.
    now rewrite <- app_assoc.
Qed.

Lemma exec_save_all (items : list pyval) :
  Forall loads_back items ->
  forallb valid items = true ->
  forall payload stk,
    save_all items = Some payload ->
    exec payload stk (rev (map IVal items) ++ stk).
Proof.
  induction 1 as [|x l Hx Hl IH]; intros Hv payload stk Hs.
  - injection Hs as <-. apply exec_nil.
  - simpl in Hv. apply andb_prop in Hv as [Hvx Hvl].
    change (save_all (x :: l))
      with (match save x, save_all l with
            | Some bx, Some bl => Some (bx ++ bl)
            | _, _ => None
            end) in Hs.
    destruct (save x) as [bx|] eqn:Ex; [|discriminate].
    destruct (save_all l) as [bl|] eqn:El; [|discriminate].
    injection Hs as <-. simpl. rewrite <- app_assoc.
    eapply exec_app; [apply Hx; [exact Hvx | exact Ex]|].
    apply IH; auto.
Qed.

Lemma exec_save_items (items : list (pyval * pyval)) :
  Forall (fun kx => loads_back (fst kx) /\ loads_back (snd kx)) items ->
  valid (PyDict items) = true ->
  forall payload stk,
    save_items items = Some payload ->
    exec payload stk (rev (map IVal (flat items)) ++ stk).
Proof.
  induction 1 as [|[k x] l [Hk Hx] Hl IH]; intros Hv payload stk Hs.
  - injection Hs as <-. apply exec_nil.
  - rewrite valid_dict_cons in Hv.
    repeat (apply andb_prop in Hv as [Hv ?]).
    change (save_items ((k, x) :: l))
      with (match save k, save x, save_items l with
            | Some bk, Some bx, Some bl => Some (bk ++ bx ++ bl)
            | _, _, _ => None
            end) in Hs.
    destruct (save k) as [bk|] eqn:Ek; [|discriminate].
    destruct (save x) as [bx|] eqn:Ex; [|discriminate].
    destruct (save_items l) as [bl|] eqn:El; [|discriminate].
    injection Hs as <-. simpl. rewrite <- !app_assoc. simpl.
    eapply exec_app; [apply Hk; eauto|].
    eapply exec_app; [apply Hx; eauto|].
    apply IH; auto.
Qed.

Lemma dict_set_fresh (d : list (pyval * pyval)) (k x : pyval) :
  forallb (fun kx => negb (key_eqb (fst kx) k)) d = true ->
  dict_set d k x = d ++ [(k, x)].
Proof.
  induction d as [|[k' x'] d IH]; intros H; [reflexivity|].
  simpl in H. apply andb_prop in H as [H1 H2].
  simpl. apply negb_true_iff in H1. rewrite H1. now rewrite IH.
Qed.

Lemma set_items_valid (items d : list (pyval * pyval)) :
  valid (PyDict items) = true ->
  Forall (fun kx => forallb (fun ky => negb (key_eqb (fst kx) (fst ky))) items
                    = true) d ->
  set_items d (flat items) = Some (d ++ items).
Proof.
  revert d. induction items as [|[k x] l IH]; intros d Hv Hd.
  - simpl. now rewrite app_nil_r.
  - rewrite valid_dict_cons in Hv.
    apply andb_prop in Hv as [Hv Hvl]. apply andb_prop in Hv as [Hv Hfresh].
    apply andb_prop in Hv as [Hv _]. apply andb_prop in Hv as [Hh _].
    simpl. rewrite Hh.
    rewrite dict_set_fresh.
    + rewrite IH; [now rewrite <- app_assoc | exact Hvl |].
      apply Forall_app. split.
      * eapply List.Forall_impl; [|exact Hd]. intros kx H. simpl in H.
        now apply andb_prop in H as [_ H].
      * constructor; [exact Hfresh | constructor].
    + apply forallb_forall. intros kx Hin.
      rewrite List.Forall_forall in Hd. specialize (Hd kx Hin). simpl in Hd.
      now apply andb_prop in Hd as [Hd _].
Qed.

Lemma step_PROTO bs stk :
  step (PROTO :: bs) stk
  = match readn 1 bs with
    | Some (p, bs') =>
        if le_value p <=? HIGHEST_PROTOCOL then Next bs' stk else Fail
    | None => Fail
    end.
Proof. reflexivity. Qed.

Lemma step_FRAME bs stk :
  step (FRAME :: bs) stk
  = match readn 8 bs with
    | Some (n, bs') => if le_value n <=? blen bs' then Next bs' stk else Fail
    | None => Fail
    end.
Proof. reflexivity. Qed.

Lemma exec_batch_list (items : list pyval) (payload : bytes) (stk : stack) :
  (forall stk', exec payload stk' (rev (map IVal items) ++ stk')) ->
  exec (batch (List.length items) APPEND APPENDS payload)
       (IVal (PyList []) :: stk) (IVal (PyList items) :: stk).
Proof.
  intros H. destruct items as [|x [|y l]].
  - apply exec_nil.
  - simpl. eapply exec_snoc; [apply H|].
    apply exec_step; [discriminate | reflexivity].
  - cbn [List.length batch]. eapply exec_cons; [apply exec_mark|].
    eapply exec_snoc; [apply H|].
    apply exec_step; [discriminate|]. intros rest.
    change (step ([APPENDS] ++ rest)
              (rev (map IVal (x :: y :: l)) ++ IMark :: IVal (PyList []) :: stk))
      with (match pop_mark (rev (map IVal (x :: y :: l))
                              ++ IMark :: IVal (PyList []) :: stk) [] with
            | Some (items, IVal (PyList l0) :: stk') =>
                push (PyList (l0 ++ items)) rest stk'
            | _ => Fail
            end).
    rewrite pop_mark_rev, app_nil_r. reflexivity.
Qed.

Lemma exec_batch_dict (items : list (pyval * pyval)) (payload : bytes)
    (stk : stack) :
  valid (PyDict items) = true ->
  (forall stk', exec payload stk' (rev (map IVal (flat items)) ++ stk')) ->
  exec (batch (List.length items) SETITEM SETITEMS payload)
       (IVal (PyDict []) :: stk) (IVal (PyDict items) :: stk).
Proof.
  intros Hv H. destruct items as [|[k x] [|ky l]].
  - apply exec_nil.
  - simpl. eapply exec_snoc; [apply H|].
    rewrite valid_dict_cons in Hv.
    repeat (apply andb_prop in Hv as [Hv _]).
    apply exec_step; [discriminate|]. intros rest.
    change (step ([SETITEM] ++ rest)
              (rev (map IVal (flat [(k, x)])) ++ IVal (PyDict []) :: stk))
      with (if hashable k
            then push (PyDict (dict_set [] k x)) rest stk else Fail).
    now rewrite Hv.
  - cbn [List.length batch]. eapply exec_cons; [apply exec_mark|].
    eapply exec_snoc; [apply H|].
    apply exec_step; [discriminate|]. intros rest.
    set (its := (k, x) :: ky :: l) in *.
    change (step ([SETITEMS] ++ rest)
              (rev (map IVal (flat its)) ++ IMark :: IVal (PyDict []) :: stk))
      with (match pop_mark (rev (map IVal (flat its))
                              ++ IMark :: IVal (PyDict []) :: stk) [] with
            | Some (items, IVal (PyDict d) :: stk') =>
                match set_items d items with
                | Some d' => push (PyDict d') rest stk'
                | None => Fail
                end
            | _ => Fail
            end).
    rewrite pop_mark_rev, app_nil_r.
    rewrite (set_items_valid its []) by (auto; constructor).
    reflexivity.
Qed.

Lemma exec_snoc2 (a b : byte) (ops : bytes) (s1 s2 s3 s4 : stack) :
  exec ops s1 s2 -> exec [a] s2 s3 -> exec [b] s3 s4 ->
  exec (ops ++ [a; b]) s1 s4.
Proof.
  intros H1 H2 H3. change [a; b] with ([a] ++ [b]). rewrite app_assoc.
  eapply exec_snoc; [eapply exec_snoc|]; eauto.
Qed.

Lemma exec_tuple_tail (items : list pyval) (payload : bytes) (stk : stack) :
  (forall stk', exec payload stk' (rev (map IVal items) ++ stk')) ->
  exec (save_tuple_tail (List.length items) payload) stk
       (IVal (PyTuple items) :: stk).
Proof.
  intros H. destruct items as [|a [|b [|c [|d l]]]].
  - apply exec_step; [discriminate | reflexivity].
  - simpl. eapply exec_snoc2; [apply H | | apply exec_memoize].
    apply exec_step; [discriminate | reflexivity].
  - simpl. eapply exec_snoc2; [apply H | | apply exec_memoize].
    apply exec_step; [discriminate | reflexivity].
  - simpl. eapply exec_snoc2; [apply H | | apply exec_memoize].
    apply exec_step; [discriminate | reflexivity].
  - cbn [List.length save_tuple_tail].
    eapply exec_cons; [apply exec_mark|].
    eapply exec_snoc2; [apply H | | apply exec_memoize].
    apply exec_step; [discriminate|]. intros rest.
    set (its := a :: b :: c :: d :: l).
    change (step ([TUPLE] ++ rest) (rev (map IVal its) ++ IMark :: stk))
      with (match pop_mark (rev (map IVal its) ++ IMark :: stk) [] with
            | Some (items, stk') => push (PyTuple items) rest stk'
            | None => Fail
            end).
    rewrite pop_mark_rev, app_nil_r. reflexivity.
Qed.

(** Reading the opcodes of a valid object pushes that object. *)
Theorem save_exec (v : pyval) : loads_back v.
Proof.
  induction v as [ |b|z|s|l IH|l IH|l IH|t] using pyval_ind';
    intros Hv ops stk Hs.
  - injection Hs as <-. apply exec_step; [discriminate | reflexivity].
  - injection Hs as <-. destruct b;
      (apply exec_step; [discriminate | reflexivity]).
  - now apply exec_save_long.
  - now apply exec_save_str.
  - change (save (PyTuple l))
      with (match save_all l with
            | Some payload => Some (save_tuple_tail (List.length l) payload)
            | None => None
            end) in Hs.
    destruct (save_all l) as [payload|] eqn:E; [|discriminate].
    injection Hs as <-. apply exec_tuple_tail. intros stk'.
    rewrite valid_tuple in Hv. now apply exec_save_all.
  - change (save (PyList l))
      with (match save_all l with
            | Some payload =>
                Some (EMPTY_LIST :: MEMOIZE
                      :: batch (List.length l) APPEND APPENDS payload)
            | None => None
            end) in Hs.
    destruct (save_all l) as [payload|] eqn:E; [|discriminate].
    injection Hs as <-.
    eapply exec_cons;
      [apply exec_step with (stk' := IVal (PyList []) :: stk);
       [discriminate | reflexivity]|].
    eapply exec_cons; [apply exec_memoize|].
    apply exec_batch_list. intros stk'.
    rewrite valid_list in Hv. now apply exec_save_all.
  - change (save (PyDict l))
      with (match save_items l with
            | Some payload =>
                Some (EMPTY_DICT :: MEMOIZE
                      :: batch (List.length l) SETITEM SETITEMS payload)
            | None => None
            end) in Hs.
    destruct (save_items l) as [payload|] eqn:E; [|discriminate].
    injection Hs as <-.
    eapply exec_cons;
      [apply exec_step with (stk' := IVal (PyDict []) :: stk);
       [discriminate | reflexivity]|].
    eapply exec_cons; [apply exec_memoize|].
    apply exec_batch_dict; [exact Hv|]. intros stk'.
    now apply exec_save_items.
  - discriminate.
Qed.

Lemma run_stop (ops : bytes) (v : pyval) (fuel : nat) :
  exec ops [] [IVal v] ->
  (List.length ops < fuel)%nat ->
  run fuel (ops ++ [STOP]) [] = Some v.
Proof.
  intros (k & Hk & H) Hf.
  replace fuel with (k + S (fuel - k - 1))%nat by lia.
  rewrite H. reflexivity.
Qed.

(** [pickle.loads(pickle.dumps(v, proto)) == v] for protocols 4 and 5. *)
Theorem loads_dumps (proto : Z) (v : pyval) (b : bytes) :
  4 <= proto <= 5 ->
  valid v = true ->
  dumps proto v = Some b ->
  loads b = Some v.
Proof.
  intros Hp Hv Hd. unfold dumps in Hd.
  destruct (save v) as [ops|] eqn:Es; [|discriminate].
  destruct (Z.ltb_spec (blen ops) maxsize) as [Hm|]; [|discriminate].
  injection Hd as <-.
  pose proof (save_exec v Hv ops [] Es) as Hx.
  assert (Hrun : forall fuel, (List.length ops + 2 < fuel)%nat ->
            run fuel (PROTO :: le_bytes 1 proto ++ frame (ops ++ [STOP])) []
            = Some v).
  { intros [|fuel] Hf; [lia|]. cbn [run].
    rewrite step_PROTO, (readn_le_bytes 1).
    rewrite le_value_small by (simpl; lia).
    unfold HIGHEST_PROTOCOL. destruct (Z.leb_spec proto 5); [|lia].
    unfold frame.
    destruct (Z.leb_spec 4 (blen (ops ++ [STOP]))).
    - destruct fuel as [|fuel]; [lia|]. cbn [run].
      rewrite step_FRAME, (readn_le_bytes 8).
      rewrite le_value_small.
      + destruct (Z.leb_spec (blen (ops ++ [STOP])) (blen (ops ++ [STOP])));
          [|lia].
        apply run_stop; [exact Hx | lia].
      + rewrite blen_app. change (blen [STOP]) with 1.
        unfold maxsize in Hm. pose proof (blen_nonneg ops). simpl. lia.
    - apply run_stop; [exact Hx | lia]. }
  unfold loads. apply Hrun. cbn [List.length].
  rewrite length_app, length_le_bytes. unfold frame.
  destruct (4 <=? blen (ops ++ [STOP])); cbn [List.length];
    rewrite ?length_app, ?length_le_bytes, ?length_app; simpl; lia.
Qed.


End PickleFacts.

(** ** [pickle.loads] has fuel enough *)

Lemma readn_length (n : Z) (bs a b : bytes) :
  Pickle.readn n bs = Some (a, b) -> (List.length b <= List.length bs)%nat.
Proof.
  unfold Pickle.readn. destruct (_ && _); [|discriminate].
  intros [= <- <-]. rewrite length_skipn. lia.
Qed.

Lemma counted_length (w : Z) (bs rest : bytes) (stk : Pickle.stack)
    (k : bytes -> bytes -> Pickle.outcome) :
  (forall p bs' r s, k p bs' = Pickle.Next r s -> r = bs') ->
  Pickle.counted w bs k = Pickle.Next rest stk ->
  (List.length rest <= List.length bs)%nat.
Proof.
  intros Hk. unfold Pickle.counted.
  destruct (Pickle.readn w bs) as [[n bs1]|] eqn:E1; [|discriminate].
  destruct (Pickle.readn (le_value n) bs1) as [[p bs2]|] eqn:E2;
    [|discriminate].
  intros H. apply Hk in H as ->.
  apply readn_length in E1, E2. lia.
Qed.

(** Every opcode consumes at least its own byte. *)
Lemma step_consumes (bs rest : bytes) (stk stk' : Pickle.stack) :
  Pickle.step bs stk = Pickle.Next rest stk' ->
  (List.length rest < List.length bs)%nat.
Proof.
  destruct bs as [|op bs]; [discriminate|].
  cbn [List.length]. intros H.
  enough (List.length rest <= List.length bs)%nat by lia.
  unfold Pickle.step in H.
  repeat match type of H with
         | (if ?c then _ else _) = _ => destruct c
         end;
    try discriminate;
    try (eapply counted_length; [|exact H];
         unfold Pickle.push; now intros ? ? ? ? [= <- _]);
    unfold Pickle.push in H;
    repeat match type of H with
           | match ?x with _ => _ end = _ =>
               let E := fresh "E" in destruct x eqn:E; try discriminate
           end;
    try (injection H as <- _);
    repeat match goal with
           | E : Pickle.readn _ _ = Some _ |- _ => apply readn_length in E
           end;
    lia.
Qed.

Lemma run_fuel_enough (fuel k : nat) (bs : bytes) (stk : Pickle.stack) :
  (List.length bs < fuel)%nat ->
  Pickle.run (fuel + k) bs stk = Pickle.run fuel bs stk.
Proof.
  revert bs stk. induction fuel as [|fuel IH]; intros bs stk Hf; [lia|].
  cbn [Nat.add Pickle.run].
  destruct (Pickle.step bs stk) as [rest stk'| |] eqn:E; try reflexivity.
  apply step_consumes in E. apply IH. lia.
Qed.

(** More fuel does not change what [pickle.loads] answers. *)
Lemma loads_total (bs : bytes) (k : nat) :
  Pickle.run (S (List.length bs) + k) bs [] = Pickle.loads bs.
Proof. unfold Pickle.loads. apply run_fuel_enough. lia. Qed.

(** ** Paths *)

Lemma slash_free_app (a b : string) :
  slash_free (a ++ b) = slash_free a && slash_free b.
Proof.
  unfold slash_free. induction a as [|c a IH]; [reflexivity|].
  simpl. rewrite IH. now rewrite andb_assoc.
Qed.

Lemma split_slash_free (s : string) :
  slash_free s = true -> split_slash s = [s].
Proof.
  unfold slash_free. induction s as [|c s IH]; [reflexivity|].
  simpl. intros H. apply andb_prop in H as [Hc Hs].
  apply negb_true_iff in Hc. rewrite Hc, IH by exact Hs. reflexivity.
Qed.

Lemma split_slash_nonempty (s : string) : split_slash s <> [].
Proof.
  destruct s as [|c s]; simpl; [discriminate|].
  destruct (Ascii.eqb c slash); [discriminate|].
  destruct (split_slash s); discriminate.
Qed.

Lemma split_slash_app (a b : string) :
  slash_free b = true ->
  split_slash (a ++ b)
  = removelast (split_slash a) ++ [(List.last (split_slash a) "" ++ b)%string].
Proof.
  intros Hb. induction a as [|c a IH].
  - simpl. now apply split_slash_free.
  - change (split_slash (String c a ++ b))
      with (if Ascii.eqb c slash then EmptyString :: split_slash (a ++ b)
            else match split_slash (a ++ b) with
                 | x :: l => String c x :: l
                 | [] => [String c EmptyString]
                 end).
    change (split_slash (String c a))
      with (if Ascii.eqb c slash then EmptyString :: split_slash a
            else match split_slash a with
                 | x :: l => String c x :: l
                 | [] => [String c EmptyString]
                 end).
    rewrite IH.
    pose proof (split_slash_nonempty a) as Hne.
    destruct (split_slash a) as [|x [|y l]] eqn:E; [congruence| |];
      destruct (Ascii.eqb c slash); reflexivity.
Qed.

Lemma is_component_suffix (x r : string) :
  is_component (x ++ String "_" r) = true.
Proof.
  destruct x as [|c [|d x]]; try reflexivity;
    unfold is_component; simpl; destruct (Ascii.eqb c "."); reflexivity.
Qed.

Lemma root_of_suffix (name r : string) :
  root_of (name ++ String "_" r) = root_of (name ++ "_").
Proof.
  destruct name as [|c1 [|c2 [|c3 n]]]; destruct r as [|d1 [|d2 r]];
    simpl; repeat (destruct (Ascii.eqb _ slash); simpl); reflexivity.
Qed.

(** The artifact path is a fixed directory part followed by one last
    component, in which the key sits. *)
Lemma joinpath_artifact (p : Path) (name : string) :
  exists (pre : Path) (piece : string),
    (slash_free name = true -> pre = p /\ piece = name) /\
    forall key, slash_free key = true ->
      joinpath p (artifact_name name key)
      = pre ++ [(piece ++ "_" ++ key ++ ".pkl")%string].
Proof.
  exists ((match root_of (name ++ "_") with [] => p | _ :: _ => [] end)
          ++ root_of (name ++ "_")
          ++ List.filter is_component (removelast (split_slash name))),
         (List.last (split_slash name) ""%string).
  split.
  - intros Hn. rewrite (split_slash_free name Hn). simpl.
    assert (E : root_of (name ++ "_") = []).
    { destruct name as [|c1 [|c2 [|c3 n]]]; try reflexivity;
        unfold slash_free in Hn; simpl in Hn;
        apply andb_prop in Hn as [Hc _]; apply negb_true_iff in Hc;
        simpl; now rewrite Hc. }
    rewrite E. now rewrite !app_nil_r.
  - intros key Hk. unfold joinpath, artifact_name, Path_of_str.
    change ("_" ++ key ++ ".pkl")%string with (String "_" (key ++ ".pkl")).
    rewrite root_of_suffix.
    assert (Hs : slash_free (String "_" (key ++ ".pkl")) = true).
    { change (String "_" (key ++ ".pkl")) with ("_" ++ (key ++ ".pkl"))%string.
      rewrite !slash_free_app, Hk. reflexivity. }
    rewrite (split_slash_app name _ Hs), List.filter_app.
    cbn [List.filter]. rewrite is_component_suffix.
    destruct (root_of (name ++ "_")); now rewrite <- ?app_assoc.
Qed.

(** An MD5 key is made of hexadecimal digits. *)
Lemma hexbyte_slash_free (b : byte) :
  forallb (fun c => negb (Ascii.eqb c slash)) (MD5.hexbyte b) = true.
Proof. destruct b; reflexivity. Qed.

Lemma hexdigest_slash_free (msg : bytes) :
  slash_free (MD5.hexdigest msg) = true.
Proof.
  unfold slash_free, MD5.hexdigest.
  rewrite list_ascii_of_string_of_list_ascii.
  induction (MD5.digest msg) as [|b l IH]; [reflexivity|].
  cbn [map concat]. rewrite forallb_app, hexbyte_slash_free, IH. reflexivity.
Qed.

Lemma hexdigest_length (msg : bytes) :
  String.length (MD5.hexdigest msg) = 32%nat.
Proof.
  unfold MD5.hexdigest, MD5.digest.
  destruct (MD5.blocks _ _ _) as [a b c d].
  assert (E : forall l, String.length (string_of_list_ascii l) = List.length l).
  { induction l; simpl; auto. }
  rewrite E. reflexivity.
Qed.

Lemma arg_hash_slash_free (args : list pyval) (kwargs : kwargs_t) (key : string) :
  _arg_hash args kwargs = Return key -> slash_free key = true.
Proof.
  unfold _arg_hash. destruct (Pickle.dumps _ _); [|discriminate].
  intros [= <-]. apply hexdigest_slash_free.
Qed.

Lemma string_app_inv_head (a b c : string) :
  (a ++ b)%string = (a ++ c)%string -> b = c.
Proof. induction a; simpl; [auto | intros [= H]; auto]. Qed.

Lemma string_app_inv_tail (a b c : string) :
  (a ++ c)%string = (b ++ c)%string -> a = b.
Proof.
  intros H.
  assert (E : forall s t, list_ascii_of_string (s ++ t)
                          = list_ascii_of_string s ++ list_ascii_of_string t).
  { induction s; simpl; intros; f_equal; auto. }
  apply (f_equal list_ascii_of_string) in H. rewrite !E in H.
  apply app_inv_tail in H.
  rewrite <- (string_of_list_ascii_of_string a),
          <- (string_of_list_ascii_of_string b). now rewrite H.
Qed.

(** Different keys give different artifact paths. *)
Lemma cache_file_inj (cd : cache_dir_t) (w : world) (name k1 k2 : string) :
  slash_free k1 = true -> slash_free k2 = true ->
  cache_file_of cd w name k1 = cache_file_of cd w name k2 -> k1 = k2.
Proof.
  intros H1 H2. unfold cache_file_of.
  destruct (joinpath_artifact (cache_path_of cd w) name) as (pre & piece & _ & E).
  rewrite (E k1 H1), (E k2 H2). intros H.
  apply app_inv_head in H. injection H as H.
  apply string_app_inv_head in H.
  change ("_" ++ k1 ++ ".pkl")%string with (String "_" (k1 ++ ".pkl")) in H.
  change ("_" ++ k2 ++ ".pkl")%string with (String "_" (k2 ++ ".pkl")) in H.
  injection H as H. now apply string_app_inv_tail in H.
Qed.

(** ** The file system: [mkdir] *)

Lemma is_dir_insert_dir (fs : FS) (p q : Path) :
  is_dir fs q = true -> is_dir (<[p := Dir]> fs) q = true.
Proof.
  unfold is_dir, node_at. destruct (is_anchor q); [auto|].
  destruct (decide (p = q)) as [->|Hne].
  - now rewrite lookup_insert_eq.
  - now rewrite lookup_insert_ne.
Qed.

Lemma is_dir_insert_eq (fs : FS) (p : Path) :
  is_dir (<[p := Dir]> fs) p = true.
Proof.
  unfold is_dir, node_at. destruct (is_anchor p); [auto|].
  now rewrite lookup_insert_eq.
Qed.

Lemma os_mkdir_made (fs : FS) (p : Path) (fs1 : FS) :
  os_mkdir fs p = Return fs1 -> made fs p fs1.
Proof.
  unfold os_mkdir, made, is_dir. intros H.
  destruct (is_anchor p) eqn:Ea; [discriminate|].
  destruct (node_at fs (parent p)) as [[|c]|]; try discriminate.
  destruct (fs !! p) eqn:El; [discriminate|].
  injection H as <-. left. auto.
Qed.

Lemma mkdir_one_made (fs : FS) (p : Path) (fs1 : FS) :
  mkdir_one fs p = Return fs1 -> made fs p fs1.
Proof.
  unfold mkdir_one. intros H.
  destruct (os_mkdir fs p) as [fs'|e] eqn:E.
  - injection H as <-. now apply os_mkdir_made.
  - destruct e; try discriminate;
      (destruct (is_dir fs p) eqn:Ed; [|discriminate]);
      injection H as <-; right; auto.
Qed.

Lemma made_is_dir (fs : FS) (p : Path) (fs1 : FS) :
  made fs p fs1 -> is_dir fs1 p = true.
Proof.
  intros [(-> & _)|(-> & H)]; [apply is_dir_insert_eq | exact H].
Qed.

Lemma made_lookup (fs : FS) (p : Path) (fs1 : FS) (q : Path) :
  made fs p fs1 ->
  fs1 !! q = fs !! q \/ (fs !! q = None /\ fs1 !! q = Some Dir /\ q = p).
Proof.
  intros [(-> & _ & _ & Hn)|(-> & _)]; [|now left].
  destruct (decide (p = q)) as [->|Hne].
  - right. now rewrite lookup_insert_eq.
  - left. now rewrite lookup_insert_ne.
Qed.

Lemma made_wf (fs : FS) (p : Path) (fs1 : FS) :
  made fs p fs1 -> fs_wf fs -> fs_wf fs1.
Proof.
  intros [(-> & Ha & Hp & Hn)|(-> & _)] Hwf; [|exact Hwf].
  intros q n Hq. apply is_dir_insert_dir.
  destruct (decide (p = q)) as [->|Hne]; [exact Hp|].
  rewrite lookup_insert_ne in Hq by exact Hne. now apply (Hwf q n).
Qed.

(** [mkdir(parents=True, exist_ok=True)], when it succeeds: the path is a
    directory afterwards; nothing that existed changed; what is new is a
    directory on the way to the path. *)
Lemma mkdir_parents_spec (rp : list string) (fs fs1 : FS) :
  mkdir_parents fs rp = Return fs1 ->
  is_dir fs1 (rev rp) = true
  /\ (forall q, fs1 !! q = fs !! q
                \/ (fs !! q = None /\ fs1 !! q = Some Dir
                    /\ q `prefix_of` rev rp))
  /\ (fs_wf fs -> fs_wf fs1).
Proof.
  assert (Hmade : forall p fs fs1, made fs p fs1 ->
            is_dir fs1 p = true
            /\ (forall q, fs1 !! q = fs !! q
                          \/ (fs !! q = None /\ fs1 !! q = Some Dir
                              /\ q `prefix_of` p))
            /\ (fs_wf fs -> fs_wf fs1)).
  { intros p f f1 Hm. split; [now apply (made_is_dir f)|]. split.
    - intros q. destruct (made_lookup f p f1 q Hm) as [H|(H1 & H2 & ->)];
        [now left | right; auto].
    - now apply (made_wf f p). }
  revert fs fs1. induction rp as [|x rparent IH]; intros fs fs1 H.
  - apply Hmade. cbn [mkdir_parents] in H.
    destruct (os_mkdir fs (rev [])) as [fs'|e] eqn:E.
    + injection H as <-. now apply os_mkdir_made.
    + destruct e; try discriminate;
        (destruct (is_dir fs (rev [])) eqn:Ed; [|discriminate]);
        injection H as <-; right; auto.
  - cbn [mkdir_parents] in H.
    destruct (os_mkdir fs (rev (x :: rparent))) as [fs'|e] eqn:E.
    { injection H as <-. apply Hmade. now apply os_mkdir_made. }
    destruct e;
      try (destruct (is_dir fs (rev (x :: rparent))) eqn:Ed; [|discriminate];
           injection H as <-; apply Hmade; right; auto).
    destruct (mkdir_parents fs rparent) as [fs0|e0] eqn:E0; [|discriminate].
    destruct (IH _ _ E0) as (_ & Hl0 & Hw0).
    apply mkdir_one_made in H. destruct (Hmade _ _ _ H) as (Hd & Hl & Hw).
    split; [exact Hd|]. split; [|auto].
    intros q. destruct (Hl q) as [H1|(H1 & H2 & H3)].
    + rewrite H1. destruct (Hl0 q) as [H0|(H0 & H0' & H0'')]; [now left|].
      right. repeat split; auto. simpl.
      now apply prefix_app_r.
    + destruct (Hl0 q) as [H0|(H0 & H0' & H0'')]; [|congruence].
      right. rewrite <- H0. auto.
Qed.



(** ** The wrapper, branch by branch *)

Lemma wrapper_eq cd func args kwargs w :
  wrapper cd func args kwargs w
  = match _arg_hash args kwargs with
    | Raise e => (Raise e, w)
    | Return key =>
        let cf := cache_file_of cd w (fn_name func) key in
        match node_at (fs w) cf with
        | Some _ => on_hit cf (logged w [EvExists cf])
        | None =>
            on_miss func args kwargs (cache_path_of cd w) cf
              (logged w [EvExists cf])
        end
    end.
Proof.
  unfold wrapper, bind at 1, lift. destruct (_arg_hash args kwargs) as [key|e];
    [|reflexivity].
  unfold cache_file_of, artifact_name, on_hit, on_miss, logged.
  destruct cd; unfold Path_exists, gettempdir, emit, get_fs;
    unfold bind, ret; cbn [fs tmpdir trace cache_path_of app];
    match goal with |- context [node_at ?f ?p] => destruct (node_at f p) end;
    reflexivity.
Qed.

Lemma on_hit_eq (cf : Path) (w : world) :
  on_hit cf w
  = match node_at (fs w) cf with
    | Some (File c) =>
        (match Pickle.loads c with
         | Some v => Return v
         | None => Raise DeserializationError
         end, logged w [EvRead cf; EvOpenRead cf])
    | Some Dir => (Raise IsADirectoryError, logged w [EvOpenRead cf])
    | None => (Raise FileNotFoundError, logged w [EvOpenRead cf])
    end.
Proof.
  unfold on_hit, open_rb, pickle_load, bind, ret, raise, emit, get_fs, logged.
  cbn [fs tmpdir trace app]. unfold node_at.
  destruct (is_anchor cf); [reflexivity|].
  destruct (fs w !! cf) as [[|c]|] eqn:E; try reflexivity.
  cbn [fs tmpdir trace]. rewrite E.
  destruct (Pickle.loads c); reflexivity.
Qed.

(** The miss branch, step by step. *)
Lemma on_miss_eq func args kwargs cp cf w :
  on_miss func args kwargs cp cf w
  = let called := [EvCall (fn_name func) args kwargs] in
    match fn_body func args kwargs with
    | Raise e => (Raise e, logged w called)
    | Return v =>
        match mkdir_parents (fs w) (rev cp) with
        | Raise e => (Raise e, logged w (EvMkdir cp :: called))
        | Return fs1 =>
            let opened := EvOpenWrite cf :: EvMkdir cp :: called in
            let stopped e := (Raise e, World fs1 (tmpdir w) (opened ++ trace w)) in
            match node_at fs1 (parent cf), node_at fs1 cf with
            | _, Some Dir => stopped IsADirectoryError
            | Some Dir, _ =>
                match Pickle.dumps Pickle.HIGHEST_PROTOCOL v with
                | Some content =>
                    (Return v,
                     World (<[cf := File content]> (<[cf := File []]> fs1))
                           (tmpdir w)
                           (EvWrite cf content :: opened ++ trace w))
                | None =>
                    (Raise SerializationError,
                     World (<[cf := File []]> fs1) (tmpdir w)
                           (opened ++ trace w))
                end
            | Some (File _), _ => stopped NotADirectoryError
            | None, _ => stopped FileNotFoundError
            end
        end
    end.
Proof.
  unfold on_miss, call, Path_mkdir, open_wb, pickle_dump, bind, lift, ret,
    raise, emit, get_fs, put_fs, logged.
  cbn [fs tmpdir trace app].
  destruct (fn_body func args kwargs) as [v|e]; [|reflexivity].
  destruct (mkdir_parents (fs w) (rev cp)) as [fs1|e]; [|reflexivity].
  cbn [fs tmpdir trace].
  destruct (node_at fs1 (parent cf)) as [[|c]|];
    destruct (node_at fs1 cf) as [[|c']|]; try reflexivity;
    destruct (Pickle.dumps Pickle.HIGHEST_PROTOCOL v); reflexivity.
Qed.

(** ** Calls that return *)

Lemma cached_false_node cd func args kwargs w key :
  _arg_hash args kwargs = Return key ->
  cached cd func args kwargs w = false ->
  node_at (fs w) (cache_file_of cd w (fn_name func) key) = None.
Proof.
  unfold cached. intros ->.
  destruct (node_at _ _); [discriminate | reflexivity].
Qed.

Lemma node_at_none (f : FS) (p : Path) :
  node_at f p = None -> is_anchor p = false /\ f !! p = None.
Proof. unfold node_at. destruct (is_anchor p); [discriminate | auto]. Qed.

Lemma node_at_file (f : FS) (p : Path) (c : bytes) :
  node_at f p = Some (File c) -> is_anchor p = false /\ f !! p = Some (File c).
Proof. unfold node_at. destruct (is_anchor p); [discriminate | auto]. Qed.

Lemma invocations_app (evs tr : list event) :
  invocations (evs ++ tr) = invocations evs ++ invocations tr.
Proof.
  induction evs as [|[] evs IH]; simpl; auto. now rewrite IH.
Qed.

(** What a call that returns went through: a hit on a readable artifact,
    or a miss whose every step succeeded. *)
Lemma wrapper_return_inv cd func args kwargs w r w1 :
  wrapper cd func args kwargs w = (Return r, w1) ->
  exists key,
    _arg_hash args kwargs = Return key /\
    let cf := cache_file_of cd w (fn_name func) key in
    (exists c, node_at (fs w) cf = Some (File c)
               /\ Pickle.loads c = Some r
               /\ w1 = logged w [EvRead cf; EvOpenRead cf; EvExists cf])
    \/ (exists fs1 content,
          node_at (fs w) cf = None
          /\ fn_body func args kwargs = Return r
          /\ mkdir_parents (fs w) (rev (cache_path_of cd w)) = Return fs1
          /\ Pickle.dumps Pickle.HIGHEST_PROTOCOL r = Some content
          /\ w1 = World (<[cf := File content]> fs1) (tmpdir w)
                    (EvWrite cf content :: EvOpenWrite cf
                     :: EvMkdir (cache_path_of cd w)
                     :: EvCall (fn_name func) args kwargs
                     :: EvExists cf :: trace w)).
Proof.
  rewrite wrapper_eq. destruct (_arg_hash args kwargs) as [key|e];
    [|discriminate].
  intros H. cbn zeta in H. exists key. split; [reflexivity|]. cbn zeta.
  set (cf := cache_file_of cd w (fn_name func) key) in *.
  destruct (node_at (fs w) cf) as [n|] eqn:En.
  - left. rewrite on_hit_eq in H. cbn [logged fs] in H. rewrite En in H.
    destruct n as [|c]; [discriminate|]. exists c.
    destruct (Pickle.loads c) as [v|]; [|discriminate].
    injection H as <- <-. auto.
  - right. rewrite on_miss_eq in H. cbn [logged fs tmpdir trace] in H.
    cbn zeta in H.
    destruct (fn_body func args kwargs) as [v|e]; [|discriminate].
    destruct (mkdir_parents (fs w) (rev (cache_path_of cd w))) as [fs1|e];
      [|discriminate].
    exists fs1.
    destruct (node_at fs1 (parent cf)) as [[|c]|];
      destruct (node_at fs1 cf) as [[|c']|]; try discriminate;
      (destruct (Pickle.dumps Pickle.HIGHEST_PROTOCOL v) as [content|] eqn:Ed;
       [|discriminate]);
      injection H as <- <-; exists content;
      rewrite insert_insert_eq; repeat split; assumption || reflexivity.
Qed.

Lemma cache_file_of_tmpdir cd w w' name key :
  tmpdir w' = tmpdir w ->
  cache_file_of cd w' name key = cache_file_of cd w name key.
Proof.
  unfold cache_file_of, cache_path_of. now intros ->.
Qed.

(** After a call that returned, the artifact is a file holding a pickle
    of the returned value. *)
Lemma return_leaves_artifact cd func args kwargs w r w1 :
  Pickle.valid r = true ->
  wrapper cd func args kwargs w = (Return r, w1) ->
  exists key c,
    _arg_hash args kwargs = Return key
    /\ tmpdir w1 = tmpdir w
    /\ node_at (fs w1) (cache_file_of cd w (fn_name func) key) = Some (File c)
    /\ Pickle.loads c = Some r.
Proof.
  intros Hv H. apply wrapper_return_inv in H as (key & Hk & H).
  exists key. cbn zeta in H.
  destruct H as [(c & Hn & Hl & ->)|(fs1 & content & Hn & _ & _ & Hd & ->)].
  - exists c. auto.
  - exists content. apply node_at_none in Hn as [Ha _].
    repeat split; auto.
    + unfold node_at. rewrite Ha. cbn [fs]. apply lookup_insert_eq.
    + apply (PickleFacts.loads_dumps Pickle.HIGHEST_PROTOCOL); auto.
      unfold Pickle.HIGHEST_PROTOCOL. lia.
Qed.

(** Once a call has returned, a call with the same arguments through any
    function of the same name is a hit that returns the same value. *)
Lemma hit_after_return cd func func' args kwargs w r w1 :
  fn_name func' = fn_name func ->
  Pickle.valid r = true ->
  wrapper cd func args kwargs w = (Return r, w1) ->
  exists key,
    _arg_hash args kwargs = Return key /\
    let cf := cache_file_of cd w (fn_name func) key in
    wrapper cd func' args kwargs w1
    = (Return r, logged w1 [EvRead cf; EvOpenRead cf; EvExists cf]).
Proof.
  intros Hname Hv H.
  destruct (return_leaves_artifact _ _ _ _ _ _ _ Hv H)
    as (key & c & Hk & Ht & Hn & Hl).
  exists key. split; [exact Hk|]. cbn zeta.
  rewrite wrapper_eq, Hk, Hname. cbn zeta.
  rewrite (cache_file_of_tmpdir cd w w1) by exact Ht.
  rewrite Hn, on_hit_eq. cbn [logged fs]. rewrite Hn, Hl. reflexivity.
Qed.

(** ** Properties of the wrapper *)

(** C1 (at-most-one execution).  Starting from the Uncached state, when a
    call of the wrapper returns, a second call with the same arguments
    returns an equal value and does not run the function: over the two
    calls the function ran exactly once, and the second call left the file
    system as it was. *)
Theorem C1_at_most_one_execution cd func args kwargs w r1 w1 :
  Pickle.valid r1 = true ->
  cached cd func args kwargs w = false ->
  wrapper cd func args kwargs w = (Return r1, w1) ->
  exists w2,
    wrapper cd func args kwargs w1 = (Return r1, w2)
    /\ invocations (trace w2)
       = (fn_name func, args, kwargs) :: invocations (trace w)
    /\ fs w2 = fs w1.
Proof.
  intros Hv Hc H.
  destruct (hit_after_return cd func func args kwargs w r1 w1 eq_refl Hv H)
    as (key & Hk & H2).
  eexists. split; [exact H2|]. split; [|reflexivity].
  apply wrapper_return_inv in H as (key' & Hk' & H).
  rewrite Hk in Hk'. injection Hk' as <-. cbn zeta in H.
  pose proof (cached_false_node _ _ _ _ _ _ Hk Hc) as Hn.
  destruct H as [(c & Hn' & _)|(fs1 & content & _ & _ & _ & _ & ->)];
    [congruence|].
  reflexivity.
Qed.

Lemma C1_witness :
  let cd := CdStr "/tmp/fn_cache" in
  let args := [PyInt 1; PyInt 2] in
  let w1 := snd (wrapper cd add args [] w0) in
  exists w2,
    wrapper cd add args [] w1 = (Return (PyInt 3), w2)
    /\ invocations (trace w2) = (fn_name add, args, []) :: invocations (trace w0)
    /\ fs w2 = fs w1.
Proof.
  apply (C1_at_most_one_execution (CdStr "/tmp/fn_cache") add
           [PyInt 1; PyInt 2] [] w0 (PyInt 3));
    vm_compute; reflexivity.
Defined.

(** C10 (same name, same cache).  The artifact path is built from the
    function's name and the key, and the key from the arguments alone; so
    once a call through one function has returned, a call with the same
    arguments through another function of the same name, on the same
    cache directory, returns the first function's value and does not run
    the second function. *)
Theorem C10_same_name_shares_artifact cd func func' args kwargs w r1 w1 :
  fn_name func' = fn_name func ->
  Pickle.valid r1 = true ->
  wrapper cd func args kwargs w = (Return r1, w1) ->
  (forall key, cache_file_of cd w (fn_name func') key
               = cache_file_of cd w (fn_name func) key)
  /\ exists w2,
       wrapper cd func' args kwargs w1 = (Return r1, w2)
       /\ invocations (trace w2) = invocations (trace w1)
       /\ fs w2 = fs w1.
Proof.
  intros Hname Hv H. split; [intros key; now rewrite Hname|].
  destruct (hit_after_return cd func func' args kwargs w r1 w1 Hname Hv H)
    as (key & _ & H2).
  eexists. split; [exact H2|]. split; reflexivity.
Qed.

Lemma C10_witness :
  let cd := CdStr "/tmp/fn_cache" in
  let args := [PyInt 2; PyInt 5] in
  let w1 := snd (wrapper cd add args [] w0) in
  fn_body add_other args [] = Return (PyInt 10)
  /\ (forall key, cache_file_of cd w0 (fn_name add_other) key
                  = cache_file_of cd w0 (fn_name add) key)
  /\ exists w2,
       wrapper cd add_other args [] w1 = (Return (PyInt 7), w2)
       /\ invocations (trace w2) = invocations (trace w1)
       /\ fs w2 = fs w1.
Proof.
  split; [reflexivity|].
  apply (C10_same_name_shares_artifact (CdStr "/tmp/fn_cache") add add_other
           [PyInt 2; PyInt 5] [] w0 (PyInt 7));
    vm_compute; reflexivity.
Defined.



(** *** Objects [pickle] refuses *)

Lemma has_opaque_tuple (l : list pyval) :
  has_opaque (PyTuple l) = existsb has_opaque l.
Proof.
  induction l as [|x l IH]; [reflexivity|].
  change (has_opaque (PyTuple (x :: l)))
    with (has_opaque x || has_opaque (PyTuple l)).
  now rewrite IH.
Qed.

Lemma has_opaque_list (l : list pyval) :
  has_opaque (PyList l) = existsb has_opaque l.
Proof.
  induction l as [|x l IH]; [reflexivity|].
  change (has_opaque (PyList (x :: l)))
    with (has_opaque x || has_opaque (PyList l)).
  now rewrite IH.
Qed.

Lemma has_opaque_dict_cons (k x : pyval) (l : list (pyval * pyval)) :
  has_opaque (PyDict ((k, x) :: l))
  = has_opaque k || has_opaque x || has_opaque (PyDict l).
Proof. reflexivity. Qed.

Lemma save_all_opaque (l : list pyval) :
  Forall (fun x => has_opaque x = true -> Pickle.save x = None) l ->
  existsb has_opaque l = true -> Pickle.save_all l = None.
Proof.
  induction 1 as [|x l Hx Hl IH]; [discriminate|].
  intros H. simpl in H.
  change (Pickle.save_all (x :: l))
    with (match Pickle.save x, Pickle.save_all l with
          | Some bx, Some bl => Some (bx ++ bl)
          | _, _ => None
          end).
  apply orb_prop in H as [H|H].
  - now rewrite (Hx H).
  - rewrite (IH H). now destruct (Pickle.save x).
Qed.

Lemma save_items_opaque (l : list (pyval * pyval)) :
  Forall (fun kx => (has_opaque (fst kx) = true -> Pickle.save (fst kx) = None)
                    /\ (has_opaque (snd kx) = true
                        -> Pickle.save (snd kx) = None)) l ->
  has_opaque (PyDict l) = true -> Pickle.save_items l = None.
Proof.
  induction 1 as [|[k x] l [Hk Hx] Hl IH]; [discriminate|].
  rewrite has_opaque_dict_cons. intros H. cbn [fst snd] in Hk, Hx.
  change (Pickle.save_items ((k, x) :: l))
    with (match Pickle.save k, Pickle.save x, Pickle.save_items l with
          | Some bk, Some bx, Some bl => Some (bk ++ bx ++ bl)
          | _, _, _ => None
          end).
  apply orb_prop in H as [H|H]; [apply orb_prop in H as [H|H]|].
  - now rewrite (Hk H).
  - rewrite (Hx H). now destruct (Pickle.save k).
  - rewrite (IH H). destruct (Pickle.save k); [|reflexivity].
    now destruct (Pickle.save x).
Qed.

(** An object that holds one [pickle] refuses is refused. *)
Lemma save_opaque (v : pyval) :
  has_opaque v = true -> Pickle.save v = None.
Proof.
  induction v as [ |b|z|s|l IH|l IH|l IH|t] using PickleFacts.pyval_ind';
    intros H; try discriminate.
  - rewrite has_opaque_tuple in H.
    change (Pickle.save (PyTuple l))
      with (match Pickle.save_all l with
            | Some payload =>
                Some (Pickle.save_tuple_tail (List.length l) payload)
            | None => None
            end).
    now rewrite (save_all_opaque l IH H).
  - rewrite has_opaque_list in H.
    change (Pickle.save (PyList l))
      with (match Pickle.save_all l with
            | Some payload =>
                Some (Pickle.EMPTY_LIST :: Pickle.MEMOIZE
                      :: Pickle.batch (List.length l) Pickle.APPEND
                           Pickle.APPENDS payload)
            | None => None
            end).
    now rewrite (save_all_opaque l IH H).
  - change (Pickle.save (PyDict l))
      with (match Pickle.save_items l with
            | Some payload =>
                Some (Pickle.EMPTY_DICT :: Pickle.MEMOIZE
                      :: Pickle.batch (List.length l) Pickle.SETITEM
                           Pickle.SETITEMS payload)
            | None => None
            end).
    now rewrite (save_items_opaque l IH H).
  - reflexivity.
Qed.

Lemma has_opaque_kwargs (kwargs : kwargs_t) :
  has_opaque (kwargs_dict kwargs)
  = existsb (fun kv => has_opaque (snd kv)) kwargs.
Proof.
  unfold kwargs_dict. induction kwargs as [|[k x] l IH]; [reflexivity|].
  cbn [map fst snd existsb]. rewrite has_opaque_dict_cons, IH. reflexivity.
Qed.

Lemma arg_hash_opaque (args : list pyval) (kwargs : kwargs_t) :
  existsb has_opaque args || existsb (fun kv => has_opaque (snd kv)) kwargs
  = true ->
  _arg_hash args kwargs = Raise SerializationError.
Proof.
  intros H. unfold _arg_hash, Pickle.dumps.
  rewrite save_opaque; [reflexivity|].
  rewrite has_opaque_tuple. cbn [existsb].
  now rewrite has_opaque_tuple, has_opaque_kwargs, orb_false_r.
Qed.

(** C7 (unpicklable argument).  When an argument holds an object [pickle]
    refuses, the call raises the serialization error from key derivation
    and the environment is exactly as before: no look-up, no call of the
    function, no write. *)
Theorem C7_unpicklable_argument cd func args kwargs w :
  existsb has_opaque args || existsb (fun kv => has_opaque (snd kv)) kwargs
  = true ->
  wrapper cd func args kwargs w = (Raise SerializationError, w).
Proof.
  intros H. rewrite wrapper_eq. now rewrite (arg_hash_opaque args kwargs H).
Qed.

Lemma C7_witness :
  wrapper CdNone add
    [PyInt 1; PyList [PyOpaque "io.TextIOWrapper"]] [] w0
  = (Raise SerializationError, w0).
Proof.
  apply (C7_unpicklable_argument CdNone add
           [PyInt 1; PyList [PyOpaque "io.TextIOWrapper"]] [] w0).
  reflexivity.
Defined.

(** C8 (the function raises).  On a miss where the wrapped function
    raises, the call raises the same error after the look-up and the call
    of the function, and nothing else: the file system is unchanged, so no
    artifact is written and no directory is created. *)
Theorem C8_function_raises cd func args kwargs w key e :
  _arg_hash args kwargs = Return key ->
  cached cd func args kwargs w = false ->
  fn_body func args kwargs = Raise e ->
  wrapper cd func args kwargs w
  = (Raise e,
     World (fs w) (tmpdir w)
       (EvCall (fn_name func) args kwargs
        :: EvExists (cache_file_of cd w (fn_name func) key) :: trace w)).
Proof.
  intros Hk Hc He. rewrite wrapper_eq, Hk. cbn zeta.
  rewrite (cached_false_node _ _ _ _ _ _ Hk Hc), on_miss_eq. cbn zeta.
  now rewrite He.
Qed.

Lemma C8_witness :
  cached CdNone boom [] [] w0 = false
  /\ wrapper CdNone boom [] [] w0
     = (Raise (Raised (PyStr "ValueError")),
        World (fs w0) (tmpdir w0)
          [EvCall "boom" [] [];
           EvExists (cache_file_of CdNone w0 "boom"
                       "0f7a044c39d48ed2744b2beb09eee971")]).
Proof.
  split; [vm_compute; reflexivity|].
  apply (C8_function_raises CdNone boom [] [] w0
           "0f7a044c39d48ed2744b2beb09eee971");
    vm_compute; reflexivity.
Defined.

(** *** Storing on a miss *)

(** [mkdir(parents=True, exist_ok=True)] succeeds unless a regular file
    lies on the way. *)
Lemma mkdir_parents_succeeds (rp : list string) (fs : FS) :
  (forall q c, q `prefix_of` rev rp -> fs !! q <> Some (File c)) ->
  exists fs1, mkdir_parents fs rp = Return fs1.
Proof.
  assert (Hexists : forall (f : FS) p n,
            f !! p = Some n -> (forall c, n <> File c) -> is_dir f p = true).
  { intros f p n Hn Hf. unfold is_dir, node_at.
    destruct (is_anchor p); [reflexivity|]. rewrite Hn.
    destruct n as [|c]; [reflexivity | now destruct (Hf c)]. }
  revert fs. induction rp as [|x rparent IH]; intros fs Hfile.
  - exists fs. reflexivity.
  - cbn [mkdir_parents]. set (p := rev (x :: rparent)) in *.
    unfold os_mkdir.
    destruct (is_anchor p) eqn:Ea.
    { exists fs. unfold is_dir, node_at. now rewrite Ea. }
    assert (Epar : parent p = rev rparent).
    { unfold parent. rewrite Ea. subst p. simpl. apply removelast_last. }
    rewrite Epar.
    assert (Hpre : rev rparent `prefix_of` p).
    { subst p. simpl. now apply prefix_app_r. }
    destruct (node_at fs (rev rparent)) as [[|c]|] eqn:En.
    + destruct (fs !! p) as [n|] eqn:El; [|eauto].
      exists fs. rewrite (Hexists fs p n El); [reflexivity|].
      intros c ->. now apply (Hfile p c).
    + unfold node_at in En. destruct (is_anchor (rev rparent)); [discriminate|].
      now destruct (Hfile (rev rparent) c Hpre).
    + destruct (IH fs) as [fs0 E0].
      { intros q c Hq. apply Hfile. now transitivity (rev rparent). }
      rewrite E0.
      destruct (mkdir_parents_spec _ _ _ E0) as (Hd0 & Hl0 & _).
      unfold mkdir_one, os_mkdir. fold p. rewrite Ea, Epar.
      unfold is_dir in Hd0.
      destruct (node_at fs0 (rev rparent)) as [[|c]|]; try discriminate.
      destruct (fs0 !! p) as [n|] eqn:El; [|eauto].
      exists fs0. rewrite (Hexists fs0 p n El); [reflexivity|].
      intros c ->. destruct (Hl0 p) as [H|(_ & H & _)]; [|congruence].
      rewrite El in H. symmetry in H. now apply (Hfile p c).
Qed.

Lemma slash_free_not_anchor (p : Path) (x : string) :
  slash_free x = true -> is_anchor (p ++ [x]) = false.
Proof.
  intros Hx. destruct p as [|y [|z p]]; try reflexivity.
  simpl. destruct (String.eqb_spec x "/") as [->|_]; [discriminate|].
  destruct (String.eqb_spec x "//") as [->|_]; [discriminate|]. reflexivity.
Qed.

Lemma artifact_name_slash_free (name key : string) :
  slash_free name = true -> slash_free key = true ->
  slash_free (artifact_name name key) = true.
Proof.
  intros Hn Hk. unfold artifact_name.
  now rewrite !slash_free_app, Hn, Hk.
Qed.

Lemma cache_file_of_slash_free cd w name key :
  slash_free name = true -> slash_free key = true ->
  cache_file_of cd w name key = cache_path_of cd w ++ [artifact_name name key].
Proof.
  intros Hn Hk. unfold cache_file_of.
  destruct (joinpath_artifact (cache_path_of cd w) name)
    as (pre & piece & Hpre & E).
  destruct (Hpre Hn) as [-> ->]. now rewrite (E key Hk).
Qed.








(** Under protocol 5, the default from Python 3.14 on, the two orders of
    the named arguments still derive different keys. *)
Example keys_differ_under_protocol_5 :
  let key kwargs :=
    option_map MD5.hexdigest
      (Pickle.dumps 5 (PyTuple [PyTuple []; kwargs_dict kwargs])) in
  key kw_ab = Some "a6683e0b906460a119d9654ab496244e"%string
  /\ key kw_ba = Some "7a0413d54ac5e683009af440a217d2f3"%string.
Proof. vm_compute. split; reflexivity. Qed.




(** *** Files that stay *)

Lemma wrapper_return_file cd func args kwargs w r w1 key :
  _arg_hash args kwargs = Return key ->
  wrapper cd func args kwargs w = (Return r, w1) ->
  tmpdir w1 = tmpdir w
  /\ (exists c, fs w1 !! cache_file_of cd w (fn_name func) key
                = Some (File c))
  /\ forall q c, fs w !! q = Some (File c) ->
                 q <> cache_file_of cd w (fn_name func) key ->
                 fs w1 !! q = Some (File c).
Proof.
  intros Hk H. apply wrapper_return_inv in H as (key' & Hk' & H).
  rewrite Hk in Hk'. injection Hk' as <-. cbn zeta in H.
  destruct H as [(c & Hn & _ & ->)|(fs1 & content & Hn & _ & Hm & _ & ->)].
  - apply node_at_file in Hn as [_ Hn]. split; [reflexivity|].
    split; [now exists c | auto].
  - cbn [fs tmpdir]. split; [reflexivity|]. split.
    + exists content. apply lookup_insert_eq.
    + intros q c Hq Hne. rewrite lookup_insert_ne by congruence.
      destruct (mkdir_parents_spec _ _ _ Hm) as (_ & Hl & _).
      destruct (Hl q) as [E|(E & _)]; congruence.
Qed.

(** C9 (argument order).  The positional arguments [(1, 2)] and [(2, 1)]
    derive different keys; when a call with each returns, two different
    artifact files exist, whatever the function returned. *)
Theorem C9_swapped_arguments_two_artifacts cd func w r1 w1 r2 w2 :
  wrapper cd func [PyInt 1; PyInt 2] [] w = (Return r1, w1) ->
  wrapper cd func [PyInt 2; PyInt 1] [] w1 = (Return r2, w2) ->
  let k12 := "6590666bdf2856490072ed266ec77671"%string in
  let k21 := "8e43dd7d8345328d82cf79d813db8f88"%string in
  _arg_hash [PyInt 1; PyInt 2] [] = Return k12
  /\ _arg_hash [PyInt 2; PyInt 1] [] = Return k21
  /\ k12 <> k21
  /\ cache_file_of cd w (fn_name func) k12
     <> cache_file_of cd w (fn_name func) k21
  /\ exists c1 c2,
       fs w2 !! cache_file_of cd w (fn_name func) k12 = Some (File c1)
       /\ fs w2 !! cache_file_of cd w (fn_name func) k21 = Some (File c2).
Proof.
  intros H1 H2 k12 k21.
  assert (E12 : _arg_hash [PyInt 1; PyInt 2] [] = Return k12)
    by (vm_compute; reflexivity).
  assert (E21 : _arg_hash [PyInt 2; PyInt 1] [] = Return k21)
    by (vm_compute; reflexivity).
  assert (Hne : k12 <> k21) by discriminate.
  assert (Hcf : cache_file_of cd w (fn_name func) k12
                <> cache_file_of cd w (fn_name func) k21).
  { intros E. apply Hne. eapply cache_file_inj; [| |exact E];
      vm_compute; reflexivity. }
  repeat (split; [assumption|]).
  destruct (wrapper_return_file _ _ _ _ _ _ _ _ E12 H1) as (Ht & [c1 F1] & _).
  destruct (wrapper_return_file _ _ _ _ _ _ _ _ E21 H2) as (_ & [c2 F2] & K2).
  rewrite (cache_file_of_tmpdir cd w w1) in F2, K2 by exact Ht.
  exists c1, c2. split; [|exact F2]. now apply K2.
Qed.

Lemma C9_witness :
  let cd := CdStr "/tmp/fn_cache" in
  let w1 := snd (wrapper cd add [PyInt 1; PyInt 2] [] w0) in
  let w2 := snd (wrapper cd add [PyInt 2; PyInt 1] [] w1) in
  let k12 := "6590666bdf2856490072ed266ec77671"%string in
  let k21 := "8e43dd7d8345328d82cf79d813db8f88"%string in
  fn_body add [PyInt 1; PyInt 2] [] = fn_body add [PyInt 2; PyInt 1] []
  /\ _arg_hash [PyInt 1; PyInt 2] [] = Return k12
  /\ _arg_hash [PyInt 2; PyInt 1] [] = Return k21
  /\ k12 <> k21
  /\ cache_file_of cd w0 (fn_name add) k12
     <> cache_file_of cd w0 (fn_name add) k21
  /\ exists c1 c2,
       fs w2 !! cache_file_of cd w0 (fn_name add) k12 = Some (File c1)
       /\ fs w2 !! cache_file_of cd w0 (fn_name add) k21 = Some (File c2).
Proof.
  split; [reflexivity|].
  apply (C9_swapped_arguments_two_artifacts (CdStr "/tmp/fn_cache") add w0
           (PyInt 3)
           (snd (wrapper (CdStr "/tmp/fn_cache") add [PyInt 1; PyInt 2] [] w0))
           (PyInt 3));
    vm_compute; reflexivity.
Defined.

(** * Further properties *)

(** ** The format of a key *)

Lemma hexbyte_hex (b : byte) :
  forallb is_hexdigit (MD5.hexbyte b) = true.
Proof. destruct b; reflexivity. Qed.

Lemma hexdigest_hex (msg : bytes) :
  forallb is_hexdigit (list_ascii_of_string (MD5.hexdigest msg)) = true.
Proof.
  unfold MD5.hexdigest. rewrite list_ascii_of_string_of_list_ascii.
  induction (MD5.digest msg) as [|b l IH]; [reflexivity|].
  cbn [map concat]. rewrite forallb_app, hexbyte_hex, IH. reflexivity.
Qed.

(** X1.  Every key [_arg_hash] returns is a string of 32 lower-case
    hexadecimal digits; in particular it holds no path separator. *)
Theorem arg_hash_key_format args kwargs key :
  _arg_hash args kwargs = Return key ->
  String.length key = 32%nat
  /\ forallb is_hexdigit (list_ascii_of_string key) = true
  /\ slash_free key = true.
Proof.
  intros H. split; [|split].
  - unfold _arg_hash in H. destruct (Pickle.dumps _ _); [|discriminate].
    injection H as <-. apply hexdigest_length.
  - unfold _arg_hash in H. destruct (Pickle.dumps _ _); [|discriminate].
    injection H as <-. apply hexdigest_hex.
  - now apply (arg_hash_slash_free args kwargs).
Qed.

Lemma arg_hash_key_format_witness :
  let key := "6590666bdf2856490072ed266ec77671"%string in
  String.length key = 32%nat
  /\ forallb is_hexdigit (list_ascii_of_string key) = true
  /\ slash_free key = true.
Proof.
  apply (arg_hash_key_format [PyInt 1; PyInt 2] []).
  vm_compute. reflexivity.
Defined.



(** ** Where artifacts live *)

Lemma string_app_inj_length (a b c d : string) :
  (a ++ b)%string = (c ++ d)%string ->
  String.length a = String.length c ->
  a = c /\ b = d.
Proof.
  revert c. induction a as [|x a IH]; intros [|y c] H L; try discriminate.
  - auto.
  - simpl in H, L. injection H as -> H. injection L as L.
    destruct (IH c H L) as [-> ->]. auto.
Qed.

Lemma string_length_app (a b : string) :
  String.length (a ++ b) = (String.length a + String.length b)%nat.
Proof. induction a; simpl; auto. Qed.

Lemma artifact_name_inj (n1 k1 n2 k2 : string) :
  String.length k1 = String.length k2 ->
  artifact_name n1 k1 = artifact_name n2 k2 ->
  n1 = n2 /\ k1 = k2.
Proof.
  unfold artifact_name. intros L H.
  assert (Ln : String.length n1 = String.length n2).
  { apply (f_equal String.length) in H.
    rewrite !string_length_app in H. simpl in H. lia. }
  destruct (string_app_inj_length _ _ _ _ H Ln) as [-> E].
  split; [reflexivity|].
  change ("_" ++ k1 ++ ".pkl")%string with (String "_" (k1 ++ ".pkl")) in E.
  change ("_" ++ k2 ++ ".pkl")%string with (String "_" (k2 ++ ".pkl")) in E.
  injection E as E. now apply string_app_inv_tail in E.
Qed.

(** X3.  Artifacts are kept apart by cache directory, by function name
    and by key: two calls of functions with declared names share an
    artifact path only when their decorators resolve to the same
    directory, the functions have the same name and the keys are equal. *)
Theorem artifact_path_injective
    cd1 cd2 w n1 n2 args1 kw1 args2 kw2 k1 k2 :
  slash_free n1 = true -> slash_free n2 = true ->
  _arg_hash args1 kw1 = Return k1 ->
  _arg_hash args2 kw2 = Return k2 ->
  cache_file_of cd1 w n1 k1 = cache_file_of cd2 w n2 k2 ->
  cache_path_of cd1 w = cache_path_of cd2 w /\ n1 = n2 /\ k1 = k2.
Proof.
  intros S1 S2 H1 H2 E.
  destruct (arg_hash_key_format _ _ _ H1) as (L1 & _ & F1).
  destruct (arg_hash_key_format _ _ _ H2) as (L2 & _ & F2).
  rewrite (cache_file_of_slash_free cd1 w n1 k1 S1 F1) in E.
  rewrite (cache_file_of_slash_free cd2 w n2 k2 S2 F2) in E.
  apply app_inj_tail in E as [Ecp Ea]. split; [exact Ecp|].
  apply artifact_name_inj; [congruence | exact Ea].
Qed.

Lemma artifact_path_injective_witness :
  cache_path_of (CdStr "/tmp/fn_cache") w0 = cache_path_of (CdStr "/tmp//fn_cache/") w0
  /\ "add"%string = "add"%string
  /\ "6590666bdf2856490072ed266ec77671"%string
     = "6590666bdf2856490072ed266ec77671"%string.
Proof.
  apply (artifact_path_injective (CdStr "/tmp/fn_cache")
           (CdStr "/tmp//fn_cache/") w0 "add" "add"
           [PyInt 1; PyInt 2] [] [PyInt 1; PyInt 2] []);
    vm_compute; reflexivity.
Defined.

(** ** What a call leaves in place *)

(** X4.  A call never removes or changes what exists: whatever it returns
    or raises, every file and directory that was there before the call is
    there afterwards, unchanged, and the temporary directory is the
    same. *)
Theorem wrapper_preserves_entries cd func args kwargs w q n :
  fs w !! q = Some n ->
  fs (snd (wrapper cd func args kwargs w)) !! q = Some n
  /\ tmpdir (snd (wrapper cd func args kwargs w)) = tmpdir w.
Proof.
  intros Hq. rewrite wrapper_eq.
  destruct (_arg_hash args kwargs) as [key|e]; [|auto]. cbn zeta.
  set (cf := cache_file_of cd w (fn_name func) key).
  destruct (node_at (fs w) cf) as [m|] eqn:En.
  - rewrite on_hit_eq. cbn [logged fs]. rewrite En.
    destruct m as [|c]; auto.
  - rewrite on_miss_eq. cbn [logged fs tmpdir trace]. cbn zeta.
    destruct (fn_body func args kwargs) as [v|e]; [|auto].
    destruct (mkdir_parents (fs w) (rev (cache_path_of cd w)))
      as [fs1|e] eqn:Em; [|auto].
    destruct (mkdir_parents_spec _ _ _ Em) as (_ & Hl & _).
    assert (Hq1 : fs1 !! q = Some n).
    { destruct (Hl q) as [E|(E & _)]; congruence. }
    assert (Hne : cf <> q).
    { apply node_at_none in En as [_ En]. congruence. }
    destruct (node_at fs1 (parent cf)) as [[|c]|];
      destruct (node_at fs1 cf) as [[|c']|]; auto;
      destruct (Pickle.dumps Pickle.HIGHEST_PROTOCOL v); cbn [snd fs tmpdir];
      rewrite ?lookup_insert_ne by exact Hne; auto.
Qed.

Lemma wrapper_preserves_entries_witness :
  let w1 := snd (wrapper (CdStr "/tmp/fn_cache") add [PyInt 1; PyInt 2] [] w0) in
  let q := ["/"; "tmp"; "fn_cache";
            "add_6590666bdf2856490072ed266ec77671.pkl"]%string in
  let w2 := snd (wrapper (CdStr "/tmp/fn_cache") handle [] [] w1) in
  fs w2 !! q = Some (File [x80; x05; x4b; x03; x2e])
  /\ tmpdir w2 = tmpdir w1.
Proof.
  apply (wrapper_preserves_entries (CdStr "/tmp/fn_cache") handle [] []
           (snd (wrapper (CdStr "/tmp/fn_cache") add [PyInt 1; PyInt 2] [] w0))).
  vm_compute. reflexivity.
Defined.





(** ** Once cached, always cached *)

Lemma run_calls_preserves (cs : list call_t) (w : world) (q : Path) (n : node) :
  fs w !! q = Some n ->
  fs (run_calls cs w) !! q = Some n /\ tmpdir (run_calls cs w) = tmpdir w.
Proof.
  revert w. induction cs as [|c cs IH]; intros w Hq; [auto|].
  cbn [run_calls].
  destruct (wrapper_preserves_entries (c_dir c) (c_func c) (c_args c)
              (c_kwargs c) w q n Hq) as [H1 H2].
  destruct (IH _ H1) as [H3 H4]. split; [exact H3 | congruence].
Qed.

(** X6.  No call evicts an artifact: once a call has returned, then after
    any further calls of wrapped functions (any decorators, functions and
    arguments, returning or raising) the same call is a hit that returns
    the same value without running the function. *)
Theorem cached_stays_cached cd func args kwargs w r w1 (cs : list call_t) :
  Pickle.valid r = true ->
  wrapper cd func args kwargs w = (Return r, w1) ->
  let w2 := run_calls cs w1 in
  exists evs,
    wrapper cd func args kwargs w2
    = (Return r, World (fs w2) (tmpdir w2) (evs ++ trace w2))
    /\ forallb is_read_event evs = true.
Proof.
  intros Hv H w2.
  destruct (return_leaves_artifact _ _ _ _ _ _ _ Hv H)
    as (key & c & Hk & Ht & Hn & Hl).
  apply node_at_file in Hn as [Ha Hn].
  destruct (run_calls_preserves cs w1 _ _ Hn) as [Hn2 Ht2]. fold w2 in Hn2, Ht2.
  set (cf := cache_file_of cd w (fn_name func) key) in *.
  exists [EvRead cf; EvOpenRead cf; EvExists cf]. split; [|reflexivity].
  assert (En2 : node_at (fs w2) cf = Some (File c)).
  { unfold node_at. now rewrite Ha. }
  rewrite wrapper_eq, Hk. cbn zeta.
  rewrite (cache_file_of_tmpdir cd w w2) by congruence. fold cf.
  rewrite En2, on_hit_eq. cbn [logged fs tmpdir trace]. rewrite En2, Hl.
  reflexivity.
Qed.

Lemma cached_stays_cached_witness :
  let cd := CdStr "/tmp/fn_cache" in
  let w1 := snd (wrapper cd add [PyInt 1; PyInt 2] [] w0) in
  let w2 := run_calls [ {| c_dir := cd; c_func := handle; c_args := [];
                           c_kwargs := [] |};
                        {| c_dir := CdNone; c_func := add_other;
                           c_args := [PyInt 1; PyInt 2]; c_kwargs := [] |};
                        {| c_dir := cd; c_func := boom; c_args := [];
                           c_kwargs := [] |} ] w1 in
  exists evs,
    wrapper cd add [PyInt 1; PyInt 2] [] w2
    = (Return (PyInt 3), World (fs w2) (tmpdir w2) (evs ++ trace w2))
    /\ forallb is_read_event evs = true.
Proof.
  apply (cached_stays_cached (CdStr "/tmp/fn_cache") add [PyInt 1; PyInt 2] []
           w0 (PyInt 3));
    vm_compute; reflexivity.
Defined.

Lemma call_n_hits cd func args kwargs w r w1 (n : nat) :
  Pickle.valid r = true ->
  wrapper cd func args kwargs w = (Return r, w1) ->
  fst (call_n n cd func args kwargs w1) = repeat (Return r) n
  /\ fs (snd (call_n n cd func args kwargs w1)) = fs w1
  /\ invocations (trace (snd (call_n n cd func args kwargs w1)))
     = invocations (trace w1).
Proof.
  intros Hv. revert w w1. induction n as [|n IH]; intros w w1 H; [auto|].
  destruct (hit_after_return cd func func args kwargs w r w1 eq_refl Hv H)
    as (key & Hk & H2). cbn zeta in H2.
  cbn [call_n]. rewrite H2.
  destruct (IH _ _ H2) as (E1 & E2 & E3).
  destruct (call_n n cd func args kwargs _) as [rs w3].
  cbn [fst snd] in *. rewrite E1, E2, E3. auto.
Qed.

(** X7.  At most one execution, over any number of calls: starting
    Uncached, when the first of [n + 1] identical calls returns, all of
    them return the same value and the function has run exactly once. *)
Theorem call_n_runs_function_once cd func args kwargs w r w1 (n : nat) :
  Pickle.valid r = true ->
  cached cd func args kwargs w = false ->
  wrapper cd func args kwargs w = (Return r, w1) ->
  fst (call_n (S n) cd func args kwargs w) = repeat (Return r) (S n)
  /\ invocations (trace (snd (call_n (S n) cd func args kwargs w)))
     = (fn_name func, args, kwargs) :: invocations (trace w).
Proof.
  intros Hv Hc H. cbn [call_n]. rewrite H.
  destruct (call_n_hits cd func args kwargs w r w1 n Hv H) as (E1 & _ & E3).
  destruct (call_n n cd func args kwargs w1) as [rs w2].
  cbn [fst snd] in *. rewrite E1, E3. split; [reflexivity|].
  apply wrapper_return_inv in H as (key & Hk & H). cbn zeta in H.
  pose proof (cached_false_node _ _ _ _ _ _ Hk Hc) as Hn.
  destruct H as [(c & Hn' & _)|(fs1 & content & _ & _ & _ & _ & ->)];
    [congruence | reflexivity].
Qed.

Lemma call_n_runs_function_once_witness :
  let cd := CdStr "/tmp/fn_cache" in
  fst (call_n 5 cd add [PyInt 1; PyInt 2] [] w0) = repeat (Return (PyInt 3)) 5
  /\ invocations (trace (snd (call_n 5 cd add [PyInt 1; PyInt 2] [] w0)))
     = (fn_name add, [PyInt 1; PyInt 2], []) :: invocations (trace w0).
Proof.
  apply (call_n_runs_function_once (CdStr "/tmp/fn_cache") add
           [PyInt 1; PyInt 2] [] w0 (PyInt 3)
           (snd (wrapper (CdStr "/tmp/fn_cache") add [PyInt 1; PyInt 2] [] w0)) 4);
    vm_compute; reflexivity.
Defined.

(** ** Calls that fail *)

Lemma slash_free_cache_file_fresh (cd : cache_dir_t) (w : world)
    (name key : string) (fs1 : FS) :
  slash_free name = true -> slash_free key = true ->
  node_at (fs w) (cache_file_of cd w name key) = None ->
  (forall q, fs1 !! q = fs w !! q
             \/ (fs w !! q = None /\ fs1 !! q = Some Dir
                 /\ q `prefix_of` cache_path_of cd w)) ->
  node_at fs1 (cache_file_of cd w name key) = None
  /\ parent (cache_file_of cd w name key) = cache_path_of cd w.
Proof.
  intros Hn Hk Hnone Hl.
  rewrite (cache_file_of_slash_free cd w name key Hn Hk) in *.
  pose proof (slash_free_not_anchor (cache_path_of cd w) _
                (artifact_name_slash_free _ _ Hn Hk)) as Ha.
  split.
  - unfold node_at. rewrite Ha. apply node_at_none in Hnone as [_ Hnone].
    destruct (Hl (cache_path_of cd w ++ [artifact_name name key]))
      as [E|(_ & _ & Hpre)]; [congruence|].
    apply prefix_length in Hpre. rewrite length_app in Hpre.
    simpl in Hpre. lia.
  - unfold parent. rewrite Ha. apply removelast_last.
Qed.






(** ** Deleting an artifact *)

Lemma mkdir_parents_existing (rp : list string) (f : FS) :
  fs_wf f -> is_dir f (rev rp) = true -> mkdir_parents f rp = Return f.
Proof.
  intros Hwf Hd. destruct rp as [|x rparent].
  - reflexivity.
  - cbn [mkdir_parents]. set (p := rev (x :: rparent)) in *.
    unfold os_mkdir. destruct (is_anchor p) eqn:Ea; [now rewrite Hd|].
    assert (Hp : f !! p = Some Dir).
    { unfold is_dir, node_at in Hd. rewrite Ea in Hd.
      destruct (f !! p) as [[|c]|]; congruence. }
    pose proof (Hwf p Dir Hp) as Hpar. unfold is_dir in Hpar.
    destruct (node_at f (parent p)) as [[|c]|]; try discriminate.
    now rewrite Hp, Hd.
Qed.

(** The miss branch when everything succeeds, for a declared name. *)
Lemma miss_stores (cd : cache_dir_t) (func : PyFunc) (args : list pyval)
    (kwargs : kwargs_t) (w : world) (key : string) (v : pyval)
    (content : bytes) (f : FS) (tr : list event) :
  slash_free (fn_name func) = true ->
  _arg_hash args kwargs = Return key ->
  fn_body func args kwargs = Return v ->
  Pickle.dumps Pickle.HIGHEST_PROTOCOL v = Some content ->
  let cp := cache_path_of cd w in
  let cf := cache_file_of cd w (fn_name func) key in
  node_at f cf = None ->
  is_dir f cp = true ->
  mkdir_parents f (rev cp) = Return f ->
  wrapper cd func args kwargs (World f (tmpdir w) tr)
  = (Return v,
     World (<[cf := File content]> f) (tmpdir w)
       (EvWrite cf content :: EvOpenWrite cf :: EvMkdir cp
        :: EvCall (fn_name func) args kwargs :: EvExists cf :: tr)).
Proof.
  intros Hname Hk Hv Hd cp cf Hn Hdir Hm.
  pose proof (arg_hash_slash_free _ _ _ Hk) as Hkey.
  rewrite wrapper_eq, Hk. cbn zeta.
  rewrite (cache_file_of_tmpdir cd w) by reflexivity.
  assert (Ecp : cache_path_of cd (World f (tmpdir w) tr) = cp) by now destruct cd.
  rewrite Ecp. fold cf. cbn [fs]. rewrite Hn, on_miss_eq.
  cbn [logged fs tmpdir trace app]. cbn zeta. rewrite Hv, Hm.
  assert (Epar : parent cf = cp).
  { unfold cf. rewrite (cache_file_of_slash_free cd w _ _ Hname Hkey).
    unfold parent.
    rewrite (slash_free_not_anchor _ _ (artifact_name_slash_free _ _ Hname Hkey)).
    apply removelast_last. }
  rewrite Epar, Hn. unfold is_dir in Hdir.
  destruct (node_at f cp) as [[|c]|]; try discriminate.
  rewrite Hd, insert_insert_eq. reflexivity.
Qed.

(** X10.  Deleting the artifact resets the pair to Uncached: after a miss
    that stored its result, [os.remove] of the artifact succeeds, and the
    next call runs the function again, returns the same value and writes
    the artifact back, leaving the file system as it was before the
    deletion. *)
Theorem remove_then_recompute cd func args kwargs w key r w1 :
  fs_wf (fs w) ->
  slash_free (fn_name func) = true ->
  _arg_hash args kwargs = Return key ->
  cached cd func args kwargs w = false ->
  wrapper cd func args kwargs w = (Return r, w1) ->
  let cf := cache_file_of cd w (fn_name func) key in
  exists w2 w3,
    os_remove cf w1 = (Return tt, w2)
    /\ cached cd func args kwargs w2 = false
    /\ wrapper cd func args kwargs w2 = (Return r, w3)
    /\ fs w3 = fs w1
    /\ invocations (trace w3)
       = (fn_name func, args, kwargs) :: (fn_name func, args, kwargs)
         :: invocations (trace w).
Proof.
  intros Hwf Hname Hk Hc H cf.
  pose proof (arg_hash_slash_free _ _ _ Hk) as Hkey.
  pose proof (cached_false_node _ _ _ _ _ _ Hk Hc) as Hn. fold cf in Hn.
  apply wrapper_return_inv in H as (key' & Hk' & H).
  rewrite Hk in Hk'. injection Hk' as <-. cbn zeta in H. fold cf in H.
  destruct H as [(c & Hn' & _)|(fs1 & content & _ & Hv & Hm & Hd & ->)];
    [congruence|].
  destruct (mkdir_parents_spec _ _ _ Hm) as (Hdir & Hl & Hwf1).
  rewrite rev_involutive in Hdir, Hl. specialize (Hwf1 Hwf).
  destruct (slash_free_cache_file_fresh cd w _ _ fs1 Hname Hkey Hn Hl)
    as [Hn1 _]. fold cf in Hn1.
  pose proof (node_at_none _ _ Hn1) as [Ha Hl1].
  set (tr1 := EvWrite cf content :: _).
  exists (World fs1 (tmpdir w) tr1). eexists.
  split; [|split; [|split; [|split]]].
  - unfold os_remove, bind, get_fs, put_fs. cbn [fs tmpdir trace].
    unfold node_at. rewrite Ha, lookup_insert_eq.
    now rewrite delete_insert_id by exact Hl1.
  - unfold cached. rewrite Hk.
    rewrite (cache_file_of_tmpdir cd w) by reflexivity.
    cbn [fs]. fold cf. now rewrite Hn1.
  - apply (miss_stores cd func args kwargs w key r content fs1 tr1);
      auto.
    apply mkdir_parents_existing; [exact Hwf1|]. now rewrite rev_involutive.
  - reflexivity.
  - reflexivity.
Qed.

Lemma remove_then_recompute_witness :
  let cd := CdStr "/tmp/fn_cache" in
  let args := [PyInt 1; PyInt 2] in
  let w1 := snd (wrapper cd add args [] w0) in
  let cf := cache_file_of cd w0 (fn_name add)
              "6590666bdf2856490072ed266ec77671" in
  exists w2 w3,
    os_remove cf w1 = (Return tt, w2)
    /\ cached cd add args [] w2 = false
    /\ wrapper cd add args [] w2 = (Return (PyInt 3), w3)
    /\ fs w3 = fs w1
    /\ invocations (trace w3)
       = (fn_name add, args, []) :: (fn_name add, args, [])
         :: invocations (trace w0).
Proof.
  apply (remove_then_recompute (CdStr "/tmp/fn_cache") add
           [PyInt 1; PyInt 2] [] w0 "6590666bdf2856490072ed266ec77671"
           (PyInt 3));
    try (vm_compute; reflexivity).
  intros q n H. change (fs w0) with (∅ : FS) in H.
  now rewrite lookup_empty in H.
Defined.

(** ** Equality of Python values *)

Lemma key_eqb_refl (k : pyval) :
  Pickle.hashable k = true -> Pickle.key_eqb k k = true.
Proof.
  induction k as [ |b|z|s|l IH|l IH|l IH|t] using PickleFacts.pyval_ind';
    intros H; try discriminate; try reflexivity.
  - apply eqb_reflx.
  - apply Z.eqb_refl.
  - apply String.eqb_refl.
  - induction IH as [|x l Hx Hl IHl]; [reflexivity|].
    change (Pickle.hashable (PyTuple (x :: l)))
      with (Pickle.hashable x && Pickle.hashable (PyTuple l)) in H.
    apply andb_prop in H as [H1 H2].
    change (Pickle.key_eqb (PyTuple (x :: l)) (PyTuple (x :: l)))
      with (Pickle.key_eqb x x && Pickle.key_eqb (PyTuple l) (PyTuple l)).
    now rewrite (Hx H1), (IHl H2).
  - apply String.eqb_refl.
Qed.

Lemma py_eqb_dict (d e : list (pyval * pyval)) :
  py_eqb (PyDict d) (PyDict e)
  = (List.length d =? List.length e)%nat && dict_all e d.
Proof. reflexivity. Qed.

Lemma dict_find_here (pre rest : list (pyval * pyval)) (k x : pyval) :
  forallb (fun kx => negb (Pickle.key_eqb (fst kx) k)) pre = true ->
  Pickle.hashable k = true ->
  dict_find k x (pre ++ (k, x) :: rest) = py_eqb x x.
Proof.
  intros Hpre Hk. induction pre as [|[k' x'] pre IH].
  - simpl. now rewrite (key_eqb_refl k Hk).
  - simpl in Hpre. apply andb_prop in Hpre as [H1 H2].
    apply negb_true_iff in H1. cbn [fst] in H1.
    cbn [app]. change (dict_find k x ((k', x') :: pre ++ (k, x) :: rest))
      with (if Pickle.key_eqb k' k then py_eqb x x'
            else dict_find k x (pre ++ (k, x) :: rest)).
    rewrite H1. now apply IH.
Qed.

Lemma valid_dict_split (pre rest : list (pyval * pyval)) (k x : pyval) :
  Pickle.valid (PyDict (pre ++ (k, x) :: rest)) = true ->
  forallb (fun kx => negb (Pickle.key_eqb (fst kx) k)) pre = true
  /\ Pickle.hashable k = true.
Proof.
  induction pre as [|[k' x'] pre IH]; intros H.
  - cbn [app] in H. rewrite PickleFacts.valid_dict_cons in H.
    repeat (apply andb_prop in H as [H _]). auto.
  - cbn [app] in H. rewrite PickleFacts.valid_dict_cons in H.
    apply andb_prop in H as [H Hrest]. apply andb_prop in H as [_ Hfresh].
    destruct (IH Hrest) as [H1 H2]. split; [|exact H2].
    cbn [forallb fst]. rewrite H1, andb_true_r.
    rewrite forallb_app in Hfresh. apply andb_prop in Hfresh as [_ Hf].
    cbn [forallb fst] in Hf. now apply andb_prop in Hf as [Hf _].
Qed.

(** A well-formed value equals itself. *)
Lemma py_eqb_refl (v : pyval) :
  Pickle.valid v = true -> py_eqb v v = true.
Proof.
  induction v as [ |b|z|s|l IH|l IH|l IH|t] using PickleFacts.pyval_ind';
    intros H; try reflexivity.
  - apply eqb_reflx.
  - apply Z.eqb_refl.
  - apply String.eqb_refl.
  - rewrite PickleFacts.valid_tuple in H.
    change (py_eqb (PyTuple l) (PyTuple l)) with (all2_eqb l l).
    induction IH as [|x l Hx Hl IHl]; [reflexivity|].
    simpl in H. apply andb_prop in H as [H1 H2].
    change (all2_eqb (x :: l) (x :: l)) with (py_eqb x x && all2_eqb l l).
    now rewrite (Hx H1), (IHl H2).
  - rewrite PickleFacts.valid_list in H.
    change (py_eqb (PyList l) (PyList l)) with (all2_eqb l l).
    induction IH as [|x l Hx Hl IHl]; [reflexivity|].
    simpl in H. apply andb_prop in H as [H1 H2].
    change (all2_eqb (x :: l) (x :: l)) with (py_eqb x x && all2_eqb l l).
    now rewrite (Hx H1), (IHl H2).
  - rewrite py_eqb_dict, Nat.eqb_refl. cbn [andb].
    assert (G : forall pre d,
              l = pre ++ d ->
              Forall (fun kx => (Pickle.valid (fst kx) = true
                                 -> py_eqb (fst kx) (fst kx) = true)
                                /\ (Pickle.valid (snd kx) = true
                                    -> py_eqb (snd kx) (snd kx) = true)) d ->
              dict_all l d = true).
    { intros pre d. revert pre.
      induction d as [|[k x] d IHd]; intros pre E Hd; [reflexivity|].
      change (dict_all l ((k, x) :: d))
        with (dict_find k x l && dict_all l d).
      apply List.Forall_cons_iff in Hd as [[_ Hx] Hd]. cbn [snd] in Hx.
      rewrite (IHd (pre ++ [(k, x)])); [|now rewrite <- app_assoc | exact Hd].
      rewrite andb_true_r.
      assert (Hl : Pickle.valid (PyDict (pre ++ (k, x) :: d)) = true)
        by now rewrite <- E.
      destruct (valid_dict_split _ _ _ _ Hl) as [Hpre Hk].
      rewrite E, (dict_find_here pre d k x Hpre Hk). apply Hx.
      clear -Hl. induction pre as [|[k' x'] pre IHp].
      - cbn [app] in Hl. rewrite PickleFacts.valid_dict_cons in Hl.
        apply andb_prop in Hl as [Hl _]. apply andb_prop in Hl as [Hl _].
        now apply andb_prop in Hl as [_ Hl].
      - cbn [app] in Hl. rewrite PickleFacts.valid_dict_cons in Hl.
        apply andb_prop in Hl as [_ Hl]. now apply IHp. }
    apply (G [] l eq_refl IH).
  - apply String.eqb_refl.
Qed.

(** ** The test suite *)

Lemma hit_returns cd func args kwargs w key c v :
  _arg_hash args kwargs = Return key ->
  node_at (fs w) (cache_file_of cd w (fn_name func) key) = Some (File c) ->
  Pickle.loads c = Some v ->
  wrapper cd func args kwargs w
  = (Return v,
     logged w [EvRead (cache_file_of cd w (fn_name func) key);
               EvOpenRead (cache_file_of cd w (fn_name func) key);
               EvExists (cache_file_of cd w (fn_name func) key)]).
Proof.
  intros Hk Hn Hl. rewrite wrapper_eq, Hk. cbn zeta.
  rewrite Hn, on_hit_eq. cbn [logged fs tmpdir trace app]. now rewrite Hn, Hl.
Qed.

Lemma miss_stores_fresh (cd : cache_dir_t) (func : PyFunc)
    (args : list pyval) (kwargs : kwargs_t) (w : world) (key : string)
    (v : pyval) (content : bytes) (fs1 : FS) :
  slash_free (fn_name func) = true ->
  _arg_hash args kwargs = Return key ->
  fn_body func args kwargs = Return v ->
  Pickle.dumps Pickle.HIGHEST_PROTOCOL v = Some content ->
  let cp := cache_path_of cd w in
  let cf := cache_file_of cd w (fn_name func) key in
  node_at (fs w) cf = None ->
  mkdir_parents (fs w) (rev cp) = Return fs1 ->
  wrapper cd func args kwargs w
  = (Return v,
     World (<[cf := File content]> fs1) (tmpdir w)
       (EvWrite cf content :: EvOpenWrite cf :: EvMkdir cp
        :: EvCall (fn_name func) args kwargs :: EvExists cf :: trace w))
  /\ fs1 !! cf = None /\ is_anchor cf = false.
Proof.
  intros Hname Hk Hv Hd cp cf Hn Hm.
  pose proof (arg_hash_slash_free _ _ _ Hk) as Hkey.
  destruct (mkdir_parents_spec _ _ _ Hm) as (Hdir & Hl & _).
  rewrite rev_involutive in Hdir, Hl. fold cp in Hdir, Hl.
  destruct (slash_free_cache_file_fresh cd w _ _ fs1 Hname Hkey Hn Hl)
    as [Hn1 Epar]. fold cf cp in Hn1, Epar.
  destruct (node_at_none _ _ Hn1) as [Ha Hl1].
  split; [|auto].
  rewrite wrapper_eq, Hk. cbn zeta. fold cf cp.
  rewrite Hn, on_miss_eq. cbn [logged fs tmpdir trace app]. cbn zeta.
  rewrite Hv, Hm, Epar, Hn1. unfold is_dir in Hdir.
  destruct (node_at fs1 cp) as [[|c]|]; try discriminate.
  rewrite Hd, insert_insert_eq. reflexivity.
Qed.

Lemma Path_exists_eq (p : Path) (w : world) :
  Path_exists p w
  = (Return (match node_at (fs w) p with Some _ => true | None => false end),
     logged w [EvExists p]).
Proof. reflexivity. Qed.

Lemma bind_eq {A B} (m : M A) (k : A -> M B) (w w' : world) (r : result A) :
  m w = (r, w') ->
  bind m k w = match r with
               | Return a => k a w'
               | Raise e => (Raise e, w')
               end.
Proof. unfold bind. now intros ->. Qed.

(** X11.  The repository's test passes in a clean environment: when no
    regular file lies on the way to [/tmp/fn_cache] and the artifact of
    [add(1, 2)] is absent, every assertion holds, the addition ran once
    through the wrapper, and after the clean-up the file system differs
    from the one before only by the directories that were made. *)
Theorem test_passes_when_clean (w : world) :
  let cp := ["/"; "tmp"; "fn_cache"]%string in
  let cf := cp ++ ["add_6590666bdf2856490072ed266ec77671.pkl"%string] in
  (forall q c, q `prefix_of` cp -> fs w !! q <> Some (File c)) ->
  fs w !! cf = None ->
  exists w',
    test_diskcache_fn w = (Return tt, w')
    /\ fs w' !! cf = None
    /\ (forall q, fs w' !! q = fs w !! q
                  \/ (fs w !! q = None /\ fs w' !! q = Some Dir
                      /\ q `prefix_of` cp))
    /\ invocations (trace w')
       = ("add"%string, [PyInt 1; PyInt 2], []) :: invocations (trace w).
Proof.
  intros cp cf Hfile Hnone.
  set (cd := CdStr "/tmp/fn_cache").
  set (key := "6590666bdf2856490072ed266ec77671"%string).
  set (input := [PyInt 1; PyInt 2]).
  set (content := [x80; x05; x4b; x03; x2e]).
  assert (Hk : _arg_hash input [] = Return key) by (vm_compute; reflexivity).
  assert (Ecf : forall w', cache_file_of cd w' (fn_name test_add) key = cf)
    by reflexivity.
  assert (Ecp : forall w', cache_path_of cd w' = cp) by reflexivity.
  destruct (mkdir_parents_succeeds (rev cp) (fs w)) as [fs1 Hm].
  { now rewrite rev_involutive. }
  destruct (mkdir_parents_spec _ _ _ Hm) as (_ & Hl & _).
  rewrite rev_involutive in Hl.
  destruct (miss_stores_fresh cd test_add input [] w key (PyInt 3) content fs1)
    as (H1 & Hl1 & Ha); try reflexivity; try exact Hk.
  { rewrite Ecf. unfold node_at. exact Hnone. }
  { rewrite Ecp. exact Hm. }
  rewrite ?Ecf, ?Ecp in H1, Hl1, Ha.
  set (w1 := World (<[cf := File content]> fs1) _ _) in H1.
  assert (Hn1 : forall tr, node_at (fs (logged w1 tr)) cf = Some (File content)).
  { intros tr. unfold node_at. rewrite Ha. cbn [logged fs w1].
    apply lookup_insert_eq. }
  assert (H2 : wrapper cd test_add input [] (logged w1 [EvExists cf])
               = (Return (PyInt 3),
                  logged (logged w1 [EvExists cf])
                    [EvRead cf; EvOpenRead cf; EvExists cf])).
  { rewrite (hit_returns cd test_add input [] _ key content (PyInt 3) Hk);
      [now rewrite Ecf | rewrite Ecf; apply Hn1 | reflexivity]. }
  eexists.
  split; [|split; [|split]].
  - unfold test_diskcache_fn, diskcache_fn, inner. cbn zeta.
    fold cd input.
    rewrite (bind_eq _ _ _ _ _ H1).
    cbv beta iota.
    rewrite (bind_eq (lift (_arg_hash input [])) _ w1 w1 (Return key))
      by (unfold lift; now rewrite Hk).
    cbv beta iota.
    change (joinpath (Path_of_str "/tmp/fn_cache") ("add_" ++ key ++ ".pkl"))
      with cf.
    rewrite (bind_eq _ _ _ _ _ (Path_exists_eq cf w1)).
    cbv beta iota.
    change (node_at (fs w1) cf) with (node_at (fs (logged w1 [])) cf).
    rewrite Hn1.
    rewrite (bind_eq (assertTrue true) _ _ _ _ eq_refl).
    cbv beta iota.
    rewrite (bind_eq _ _ _ _ _ H2).
    cbv beta iota.
    rewrite (bind_eq (assertEqual (PyInt 3) (PyInt 3)) _ _ _ (Return tt) eq_refl).
    cbv beta iota.
    rewrite (bind_eq (lift (uncached_add input [])) _ _ _ (Return (PyInt 3))
               eq_refl).
    cbv beta iota.
    rewrite (bind_eq (assertEqual (PyInt 3) (PyInt 3)) _ _ _ (Return tt) eq_refl).
    cbv beta iota.
    unfold os_remove, bind, get_fs, put_fs.
    cbn [logged fs tmpdir trace w1 app]. unfold node_at. rewrite Ha.
    rewrite lookup_insert_eq, delete_insert_id by exact Hl1.
    reflexivity.
  - exact Hl1.
  - exact Hl.
  - reflexivity.
Qed.

Lemma test_passes_when_clean_witness :
  let cp := ["/"; "tmp"; "fn_cache"]%string in
  let cf := cp ++ ["add_6590666bdf2856490072ed266ec77671.pkl"%string] in
  exists w',
    test_diskcache_fn w0 = (Return tt, w')
    /\ fs w' !! cf = None
    /\ (forall q, fs w' !! q = fs w0 !! q
                  \/ (fs w0 !! q = None /\ fs w' !! q = Some Dir
                      /\ q `prefix_of` cp))
    /\ invocations (trace w')
       = ("add"%string, [PyInt 1; PyInt 2], []) :: invocations (trace w0).
Proof.
  apply (test_passes_when_clean w0).
  - intros q c _ H. change (fs w0) with (∅ : FS) in H.
    now rewrite lookup_empty in H.
  - reflexivity.
Defined.

(** X12.  The test depends on what earlier runs left: when the artifact
    of [add(1, 2)] is already there and holds a value other than 3, both
    calls return that value, the comparison with the uncached result
    fails, and the clean-up is not reached: the function never ran and
    the file system, stale artifact included, is as before. *)
Theorem test_fails_on_stale_artifact (w : world) (c : bytes) (v : pyval) :
  let cf := ["/"; "tmp"; "fn_cache";
             "add_6590666bdf2856490072ed266ec77671.pkl"]%string in
  fs w !! cf = Some (File c) ->
  Pickle.loads c = Some v ->
  Pickle.valid v = true ->
  py_eqb v (PyInt 3) = false ->
  exists w',
    test_diskcache_fn w = (Raise AssertionError, w')
    /\ fs w' = fs w
    /\ invocations (trace w') = invocations (trace w).
Proof.
  intros cf Hf Hl Hv Hne.
  set (cd := CdStr "/tmp/fn_cache").
  set (key := "6590666bdf2856490072ed266ec77671"%string).
  set (input := [PyInt 1; PyInt 2]).
  assert (Hk : _arg_hash input [] = Return key) by (vm_compute; reflexivity).
  assert (Ecf : forall w', cache_file_of cd w' (fn_name test_add) key = cf)
    by reflexivity.
  assert (Hn : forall w', fs w' = fs w -> node_at (fs w') cf = Some (File c)).
  { intros w' ->. exact Hf. }
  assert (Hhit : forall w', fs w' = fs w ->
            wrapper cd test_add input [] w'
            = (Return v, logged w' [EvRead cf; EvOpenRead cf; EvExists cf])).
  { intros w' Hw'.
    rewrite (hit_returns cd test_add input [] _ key c v Hk);
      [now rewrite Ecf | rewrite Ecf; now apply Hn | exact Hl]. }
  eexists. split; [|split].
  - unfold test_diskcache_fn, diskcache_fn, inner. cbn zeta.
    fold cd input.
    rewrite (bind_eq _ _ _ _ _ (Hhit w eq_refl)).
    cbv beta iota.
    rewrite (bind_eq (lift (_arg_hash input [])) _ _ _ (Return key))
      by (unfold lift; now rewrite Hk).
    cbv beta iota.
    change (joinpath (Path_of_str "/tmp/fn_cache") ("add_" ++ key ++ ".pkl"))
      with cf.
    rewrite (bind_eq _ _ _ _ _ (Path_exists_eq cf _)).
    cbv beta iota.
    match goal with
    | |- context [node_at (fs ?w') cf] => rewrite (Hn w' eq_refl)
    end.
    rewrite (bind_eq (assertTrue true) _ _ _ _ eq_refl).
    cbv beta iota.
    match goal with
    | |- bind (wrapper cd test_add input []) _ ?w' = _ =>
        rewrite (bind_eq _ _ _ _ _ (Hhit w' eq_refl))
    end.
    cbv beta iota.
    rewrite (bind_eq (assertEqual v v) _ _ _ (Return tt))
      by (unfold assertEqual; now rewrite (py_eqb_refl v Hv)).
    cbv beta iota.
    rewrite (bind_eq (lift (uncached_add input [])) _ _ _ (Return (PyInt 3))
               eq_refl).
    cbv beta iota.
    rewrite (bind_eq (assertEqual v (PyInt 3)) _ _ _ (Raise AssertionError))
      by (unfold assertEqual; now rewrite Hne).
    reflexivity.
  - reflexivity.
  - reflexivity.
Qed.

Lemma test_fails_on_stale_artifact_witness :
  let cf := ["/"; "tmp"; "fn_cache";
             "add_6590666bdf2856490072ed266ec77671.pkl"]%string in
  let w := snd (wrapper (CdStr "/tmp/fn_cache") add_other
                  [PyInt 1; PyInt 2] [] w0) in
  fs w !! cf = Some (File [x80; x05; x4b; x02; x2e])
  /\ exists w',
       test_diskcache_fn w = (Raise AssertionError, w')
       /\ fs w' = fs w
       /\ invocations (trace w') = invocations (trace w).
Proof.
  split; [vm_compute; reflexivity|].
  apply (test_fails_on_stale_artifact
           (snd (wrapper (CdStr "/tmp/fn_cache") add_other
                   [PyInt 1; PyInt 2] [] w0))
           [x80; x05; x4b; x02; x2e] (PyInt 2));
    vm_compute; reflexivity.
Defined.

(** X13.  The test can pass without running the function: when the
    artifact of [add(1, 2)] is already there and holds a value equal to
    3, both calls are hits, every assertion holds, and the clean-up
    removes the artifact. *)
Theorem test_passes_on_equal_artifact (w : world) (c : bytes) (v : pyval) :
  let cf := ["/"; "tmp"; "fn_cache";
             "add_6590666bdf2856490072ed266ec77671.pkl"]%string in
  fs w !! cf = Some (File c) ->
  Pickle.loads c = Some v ->
  Pickle.valid v = true ->
  py_eqb v (PyInt 3) = true ->
  exists w',
    test_diskcache_fn w = (Return tt, w')
    /\ fs w' = delete cf (fs w)
    /\ invocations (trace w') = invocations (trace w).
Proof.
  intros cf Hf Hl Hv Heq.
  set (cd := CdStr "/tmp/fn_cache").
  set (key := "6590666bdf2856490072ed266ec77671"%string).
  set (input := [PyInt 1; PyInt 2]).
  assert (Hk : _arg_hash input [] = Return key) by (vm_compute; reflexivity).
  assert (Ecf : forall w', cache_file_of cd w' (fn_name test_add) key = cf)
    by reflexivity.
  assert (Hn : forall w', fs w' = fs w -> node_at (fs w') cf = Some (File c)).
  { intros w' ->. exact Hf. }
  assert (Hhit : forall w', fs w' = fs w ->
            wrapper cd test_add input [] w'
            = (Return v, logged w' [EvRead cf; EvOpenRead cf; EvExists cf])).
  { intros w' Hw'.
    rewrite (hit_returns cd test_add input [] _ key c v Hk);
      [now rewrite Ecf | rewrite Ecf; now apply Hn | exact Hl]. }
  eexists. split; [|split].
  - unfold test_diskcache_fn, diskcache_fn, inner. cbn zeta.
    fold cd input.
    rewrite (bind_eq _ _ _ _ _ (Hhit w eq_refl)).
    cbv beta iota.
    rewrite (bind_eq (lift (_arg_hash input [])) _ _ _ (Return key))
      by (unfold lift; now rewrite Hk).
    cbv beta iota.
    change (joinpath (Path_of_str "/tmp/fn_cache") ("add_" ++ key ++ ".pkl"))
      with cf.
    rewrite (bind_eq _ _ _ _ _ (Path_exists_eq cf _)).
    cbv beta iota.
    match goal with
    | |- context [node_at (fs ?w') cf] => rewrite (Hn w' eq_refl)
    end.
    rewrite (bind_eq (assertTrue true) _ _ _ _ eq_refl).
    cbv beta iota.
    match goal with
    | |- bind (wrapper cd test_add input []) _ ?w' = _ =>
        rewrite (bind_eq _ _ _ _ _ (Hhit w' eq_refl))
    end.
    cbv beta iota.
    rewrite (bind_eq (assertEqual v v) _ _ _ (Return tt))
      by (unfold assertEqual; now rewrite (py_eqb_refl v Hv)).
    cbv beta iota.
    rewrite (bind_eq (lift (uncached_add input [])) _ _ _ (Return (PyInt 3))
               eq_refl).
    cbv beta iota.
    rewrite (bind_eq (assertEqual v (PyInt 3)) _ _ _ (Return tt))
      by (unfold assertEqual; now rewrite Heq).
    cbv beta iota.
    unfold os_remove, bind, get_fs, put_fs.
    match goal with
    | |- context [node_at (fs ?w') cf] => rewrite (Hn w' eq_refl)
    end.
    reflexivity.
  - reflexivity.
  - reflexivity.
Qed.

Lemma test_passes_on_equal_artifact_witness :
  let cf := ["/"; "tmp"; "fn_cache";
             "add_6590666bdf2856490072ed266ec77671.pkl"]%string in
  let w := snd (wrapper (CdStr "/tmp/fn_cache") add
                  [PyInt 1; PyInt 2] [] w0) in
  exists w',
    test_diskcache_fn w = (Return tt, w')
    /\ fs w' = delete cf (fs w)
    /\ invocations (trace w') = invocations (trace w).
Proof.
  apply (test_passes_on_equal_artifact
           (snd (wrapper (CdStr "/tmp/fn_cache") add
                   [PyInt 1; PyInt 2] [] w0))
           [x80; x05; x4b; x03; x2e] (PyInt 3));
    vm_compute; reflexivity.
Defined.
